(** * Animal-shelter dashboard: data-access manager and filter evaluator

    A shallow embedding of

    - [crud_module.py] (Algorithms and DataStructures enhancement):
      the class [AnimalDatabaseManager] with its read cache;
    - [app.py] (Databases enhancement): [FILTER_SPECS],
      [spec_to_mongo_query], [apply_spec_filter], [load_base_df],
      [get_filtered_df] and [update_dashboard];
    - [crud_module.py] and [app.py] (Software Design enhancement): the
      manager before caching, and the rescue queries written by hand;

    followed by the properties of the specification that concern them.

    The manager embedded for the later enhancements is the one of the
    Algorithms and DataStructures directory.  The copy in the Databases
    directory differs from it in comments and in one line of
    [_clean_df] ([if df.empty:py]) that Python does not accept, so that
    module cannot be imported; what is proved of the functions of
    [app.py] takes what the manager returned as a hypothesis and does
    not depend on which manager returned it.

    Conventions of the embedding.
    - Python values are the inductive type [value]; attribute values of
      stored animals are the scalars [SNone], [SInt], [SStr].  Python
      [int] is [Z]; binary floating point is outside the embedding.  A
      numeric cell of a table holds an integer and stands for that
      number, whether pandas keeps the column as integers or as
      floats; this is exact up to [2^53] in absolute value.
    - A string is a sequence of code units; upper case and white space
      are those of the ASCII characters.
    - A Python [dict] is an association list in insertion order whose
      keys are strings.
    - A computation of the manager is a function from the state of the
      process (collection, cache, diagnostics printed, requests sent) to
      an outcome and a new state; a raised exception is the outcome
      [Raise e], and the state reached before the raise is kept. *)

From Stdlib Require Import ZArith String Ascii List Bool Lia OrderedTypeEx.
From Stdlib Require Import DecimalString.
From stdpp Require Import base decidable option list sorting gmap strings.

Local Open Scope string_scope.
Local Open Scope Z_scope.

(* ================================================================== *)
(** ** Python values and outcomes *)
(* ================================================================== *)

Module Py.

(** Hashable scalars. *)
Inductive scalar : Type :=
| SNone
| SInt (z : Z)
| SStr (s : string).

(** Values that travel as arguments, queries and patches. *)
#[warnings="-register-all"]
Inductive value : Type :=
| Atom (a : scalar)
| VList (l : list value)
| VDict (d : list (string * value)).

Definition pydict : Type := list (string * value).

(** A stored animal: a flat mapping from attribute name to scalar. *)
Definition record : Type := list (string * scalar).

Inductive exn : Type :=
| ValueError (msg : string)
| KeyError (key : string)
| TypeError (msg : string)
| PyMongoError (msg : string).

Inductive result (A : Type) : Type :=
| Ok (a : A)
| Raise (e : exn).
Arguments Ok {A} a.
Arguments Raise {A} e.

Definition scalar_eqb (a b : scalar) : bool :=
  match a, b with
  | SNone, SNone => true
  | SInt x, SInt y => Z.eqb x y
  | SStr x, SStr y => String.eqb x y
  | _, _ => false
  end.

#[export] Instance scalar_eq_dec : EqDecision scalar.
Proof. solve_decision. Defined.

#[export] Instance scalar_countable : Countable scalar.
Proof.
  refine (inj_countable'
    (fun a => match a with
              | SNone => inl ()
              | SInt z => inr (inl z)
              | SStr s => inr (inr s)
              end)
    (fun x => match x with
              | inl _ => SNone
              | inr (inl z) => SInt z
              | inr (inr s) => SStr s
              end) _).
  by intros [].
Defined.

(** [bool(x)] *)
Definition truthy_scalar (a : scalar) : bool :=
  match a with
  | SNone => false
  | SInt z => negb (Z.eqb z 0)
  | SStr s => negb (String.eqb s "")
  end.

Definition truthy (v : value) : bool :=
  match v with
  | Atom a => truthy_scalar a
  | VList l => match l with [] => false | _ => true end
  | VDict d => match d with [] => false | _ => true end
  end.

(** [isinstance(x, dict)] *)
Definition isinstance_dict (v : value) : bool :=
  match v with VDict _ => true | _ => false end.

(** The mapping behind a value already known to be a [dict]. *)
Definition dict_of (v : value) : pydict :=
  match v with VDict d => d | _ => [] end.

(** [hash(x)] succeeds on scalars only: lists and dicts are unhashable. *)
Definition hashable (v : value) : bool :=
  match v with Atom _ => true | _ => false end.

(** [d.get(k)] on an association list. *)
Fixpoint assoc {A : Type} (k : string) (d : list (string * A)) : option A :=
  match d with
  | [] => None
  | (k', v) :: d' => if String.eqb k k' then Some v else assoc k d'
  end.

(** [d[k] = v]: an existing key keeps its position. *)
Fixpoint assoc_set {A : Type} (k : string) (v : A) (d : list (string * A))
  : list (string * A) :=
  match d with
  | [] => [(k, v)]
  | (k', v') :: d' =>
      if String.eqb k k' then (k, v) :: d' else (k', v') :: assoc_set k v d'
  end.

(** A string is a sequence of code units.  Below 128 a code unit is
    the character of that code; text all of whose code units are below
    128 is what [str.isascii] accepts. *)
Definition is_ascii (s : string) : bool :=
  forallb (fun a => N.ltb (N_of_ascii a) 128) (list_ascii_of_string s).

(** Plain text: printable ASCII characters, and the white space from
    tab to carriage return. *)
Definition is_plain (s : string) : bool :=
  forallb (fun a => let n := N_of_ascii a in
                    (N.leb 9 n && N.leb n 13) || (N.leb 32 n && N.leb n 126))
          (list_ascii_of_string s).

(** Order of [str] under [<=]: lexicographic on code units. *)
Definition str_le (a b : string) : Prop := String.leb a b = true.

#[export] Instance str_le_dec : RelDecision str_le.
Proof. intros a b. unfold str_le. apply _. Defined.

(** [sorted(xs)] for a list of strings. *)
Definition sorted_strs (xs : list string) : list string :=
  merge_sort str_le xs.

(** Order of [(key, value)] tuples with distinct keys: the first
    components differ, so they decide. *)
Definition item_le {A : Type} (x y : string * A) : Prop :=
  str_le (fst x) (fst y).

#[export] Instance item_le_dec {A} : RelDecision (@item_le A).
Proof. intros a b. unfold item_le. apply _. Defined.

(** [sorted(d.items())] *)
Definition sorted_items {A : Type} (d : list (string * A)) : list (string * A) :=
  merge_sort item_le d.

End Py.
Export Py.

(* ================================================================== *)
(** ** Computations over the state of the process *)
(* ================================================================== *)

Module Comp.

Section Monad.
Context {W : Type}.

Definition M (A : Type) : Type := W -> result A * W.

Definition ret {A} (a : A) : M A := fun w => (Ok a, w).

Definition bind {A B} (c : M A) (k : A -> M B) : M B :=
  fun w =>
    match c w with
    | (Ok a, w') => k a w'
    | (Raise e, w') => (Raise e, w')
    end.

Definition raise {A} (e : exn) : M A := fun w => (Raise e, w).

(** [try: body  except Exception as e: handler(e)] *)
Definition try_except {A} (body : M A) (handler : exn -> M A) : M A :=
  fun w =>
    match body w with
    | (Ok a, w') => (Ok a, w')
    | (Raise e, w') => handler e w'
    end.

Definition gets {A} (f : W -> A) : M A := fun w => (Ok (f w), w).
Definition modify (f : W -> W) : M unit := fun w => (Ok tt, f w).
Definition lift {A} (r : result A) : M A := fun w => (r, w).
End Monad.

Arguments M : clear implicits.

Declare Scope comp_scope.
Delimit Scope comp_scope with comp.
Notation "'let*' x ':=' c 'in' k" :=
  (bind c (fun x => k))
  (at level 10, x name, c at level 100, k at level 200) : comp_scope.

End Comp.
Export Comp.

(* ================================================================== *)
(** ** The document collection behind the manager *)
(* ================================================================== *)

Module Mongo.

Definition sortspec : Type := list (string * Z).

(** A cursor is a description of a request; nothing is sent until the
    cursor is consumed. *)
Record Cursor : Type := mkCursor {
  c_filter : pydict;
  c_projection : option pydict;
  c_sort : option sortspec;
  c_limit : option Z
}.

Definition find (q : pydict) (p : option pydict) : Cursor :=
  mkCursor q p None None.
Definition cursor_sort (c : Cursor) (s : sortspec) : Cursor :=
  mkCursor (c_filter c) (c_projection c) (Some s) (c_limit c).
Definition cursor_limit (c : Cursor) (n : Z) : Cursor :=
  mkCursor (c_filter c) (c_projection c) (c_sort c) (Some n).

Inductive request : Type :=
| InsertOne (d : pydict)
| Fetch (c : Cursor)
| UpdateMany (q u : pydict)
| DeleteMany (q : pydict).

(** What the driver offers on a collection.  Each operation either
    answers or raises; [insert_one] answers the inserted identifier,
    [update_many] the modified count, [delete_many] the deleted count. *)
Class Collection (S : Type) : Type := {
  insert_one : pydict -> S -> result scalar * S;
  fetch : Cursor -> S -> result (list record) * S;
  update_many : pydict -> pydict -> S -> result Z * S;
  delete_many : pydict -> S -> result Z * S
}.

(** *** Meaning of a query on a flat document

    The fragment of the query language used by the dashboard: equality
    on a field, [$in] over an array of scalars, and the comparison
    operators [$gte], [$lte].  Comparisons are type-bracketed: values of
    different types never compare.  A missing field reads as null.  A
    query outside the fragment is refused ([None]). *)

Definition is_operator (k : string) : bool :=
  match k with
  | String "$" _ => true
  | _ => false
  end.

Definition field_of (r : record) (k : string) : scalar :=
  match assoc k r with
  | Some a => a
  | None => SNone
  end.

Definition scalar_leb (a b : scalar) : bool :=
  match a, b with
  | SNone, SNone => true
  | SInt x, SInt y => Z.leb x y
  | SStr x, SStr y => String.leb x y
  | _, _ => false
  end.

Definition holds_operator (op : string) (arg : value) (a : scalar)
  : option bool :=
  if String.eqb op "$in" then
    match arg with
    | VList l =>
        Some (existsb (fun v => match v with
                                | Atom b => scalar_eqb a b
                                | _ => false
                                end) l)
    | _ => None
    end
  else if String.eqb op "$gte" then
    match arg with
    | Atom b => Some (scalar_leb b a)
    | _ => Some false
    end
  else if String.eqb op "$lte" then
    match arg with
    | Atom b => Some (scalar_leb a b)
    | _ => Some false
    end
  else None.

Fixpoint holds_operators (ops : pydict) (a : scalar) : option bool :=
  match ops with
  | [] => Some true
  | (op, arg) :: rest =>
      match holds_operator op arg a, holds_operators rest a with
      | Some b1, Some b2 => Some (b1 && b2)
      | _, _ => None
      end
  end.

Definition holds_condition (c : value) (a : scalar) : option bool :=
  match c with
  | Atom b => Some (scalar_eqb a b)
  | VList _ => Some false
  | VDict [] => Some false
  | VDict (((k, _) :: _) as ops) =>
      if is_operator k then holds_operators ops a else Some false
  end.

Fixpoint matches (q : pydict) (r : record) : option bool :=
  match q with
  | [] => Some true
  | (k, c) :: rest =>
      if is_operator k then None
      else
        match holds_condition c (field_of r k), matches rest r with
        | Some b1, Some b2 => Some (b1 && b2)
        | _, _ => None
        end
  end.

(** The documents of [docs] that satisfy [q], in stored order. *)
Definition select (q : pydict) (docs : list record) : option (list record) :=
  match matches q [] with
  | None => None
  | Some _ =>
      Some (List.filter (fun r => match matches q r with
                                  | Some b => b
                                  | None => false
                                  end) docs)
  end.

End Mongo.
Export Mongo.

(* ================================================================== *)
(** ** A collection held in memory

    A small store that answers the driver calls over a list of flat
    documents.  It serves as the concrete collection on which the
    manager is run; the properties of the manager are proved for every
    [Collection]. *)
(* ================================================================== *)

Module MemStore.

Record store : Type := mkStore {
  contents : list record;
  next_id : Z;
  online : bool
}.

Fixpoint flatten (d : pydict) : option record :=
  match d with
  | [] => Some []
  | (k, Atom a) :: rest =>
      match flatten rest with
      | Some r => Some ((k, a) :: r)
      | None => None
      end
  | _ => None
  end.

(** Inclusion projection: the named fields that the document has. *)
Definition project (p : option pydict) (r : record) : record :=
  match p with
  | None => r
  | Some proj =>
      List.filter (fun kv => match assoc (fst kv) proj with
                             | Some v => truthy v
                             | None => false
                             end) r
  end.

Definition rank (a : scalar) : Z :=
  match a with
  | SNone => 0
  | SInt _ => 1
  | SStr _ => 2
  end.

Definition bson_leb (a b : scalar) : bool :=
  if Z.eqb (rank a) (rank b) then scalar_leb a b
  else Z.ltb (rank a) (rank b).

Fixpoint doc_leb (s : sortspec) (r1 r2 : record) : bool :=
  match s with
  | [] => true
  | (k, dir) :: rest =>
      let a := field_of r1 k in
      let b := field_of r2 k in
      if scalar_eqb a b then doc_leb rest r1 r2
      else if Z.leb 0 dir then bson_leb a b else bson_leb b a
  end.

Definition doc_le (s : sortspec) (r1 r2 : record) : Prop :=
  doc_leb s r1 r2 = true.

#[export] Instance doc_le_dec (s : sortspec) : RelDecision (doc_le s).
Proof. intros a b. unfold doc_le. apply _. Defined.

Definition apply_sort (s : option sortspec) (l : list record) : list record :=
  match s with
  | Some spec => merge_sort (doc_le spec) l
  | None => l
  end.

Definition apply_limit (n : option Z) (l : list record) : list record :=
  match n with
  | Some k => if Z.eqb k 0 then l else firstn (Z.abs_nat k) l
  | None => l
  end.

Definition unreachable {A} (s : store) : result A * store :=
  (Raise (PyMongoError "ServerSelectionTimeoutError"), s).

Definition refused {A} (s : store) : result A * store :=
  (Raise (PyMongoError "OperationFailure"), s).

Definition mem_insert_one (d : pydict) (s : store) : result scalar * store :=
  if online s then
    match flatten d with
    | None => (Raise (PyMongoError "InvalidDocument"), s)
    | Some r =>
        match assoc "_id" r with
        | Some i =>
            if existsb (fun r' => scalar_eqb (field_of r' "_id") i) (contents s)
            then (Raise (PyMongoError "DuplicateKeyError"), s)
            else (Ok i, mkStore (contents s ++ [r]) (next_id s) true)
        | None =>
            (Ok (SInt (next_id s)),
             mkStore (contents s ++ [("_id", SInt (next_id s)) :: r])
                     (next_id s + 1) true)
        end
    end
  else unreachable s.

Definition mem_fetch (c : Cursor) (s : store) : result (list record) * store :=
  if online s then
    match select (c_filter c) (contents s) with
    | None => refused s
    | Some l =>
        (Ok (map (project (c_projection c))
                 (apply_limit (c_limit c) (apply_sort (c_sort c) l))), s)
    end
  else unreachable s.

Definition is_match (q : pydict) (r : record) : bool :=
  match matches q r with
  | Some b => b
  | None => false
  end.

Definition patch_record (patch : record) (r : record) : record :=
  fold_left (fun acc kv => assoc_set (fst kv) (snd kv) acc) patch r.

Definition mem_update_many (q u : pydict) (s : store) : result Z * store :=
  if online s then
    match matches q [], u with
    | Some _, [(op, VDict patch)] =>
        match String.eqb op "$set", flatten patch with
        | true, Some p =>
            let changed r := negb (bool_decide (patch_record p r = r)) in
            let hit r := is_match q r && changed r in
            (Ok (Z.of_nat (List.length (List.filter hit (contents s)))),
             mkStore (map (fun r => if is_match q r then patch_record p r else r)
                          (contents s))
                     (next_id s) true)
        | _, _ => refused s
        end
    | _, _ => refused s
    end
  else unreachable s.

Definition mem_delete_many (q : pydict) (s : store) : result Z * store :=
  if online s then
    match matches q [] with
    | Some _ =>
        (Ok (Z.of_nat (List.length (List.filter (is_match q) (contents s)))),
         mkStore (List.filter (fun r => negb (is_match q r)) (contents s))
                 (next_id s) true)
    | None => refused s
    end
  else unreachable s.

#[export] Instance mem_collection : Collection store := {
  insert_one := mem_insert_one;
  fetch := mem_fetch;
  update_many := mem_update_many;
  delete_many := mem_delete_many
}.

End MemStore.

(* ================================================================== *)
(** ** The tabular structure

    A frame has column labels (pairwise distinct, as the keys of the
    records it is built from) and rows aligned with them.  A cell is a
    scalar or the missing-value marker [NaN]. *)
(* ================================================================== *)

Module Frame.

Inductive cell : Type :=
| NaN
| Val (a : scalar).

Record DataFrame : Type := mkFrame {
  columns : list string;
  rows : list (list cell)
}.

(** What [pd.to_numeric] reads in a text: no number, an integer, or a
    number for which the embedding has no cell (a fraction such as
    ["30.75"], an infinity). *)
Inductive numeral : Type :=
| NotNumeric
| Whole (z : Z)
| Inexact.

(** What the embedding takes from the numeric and string runtime: what
    [to_numeric] reads in a string, and the cell [astype(str)] gives for
    a cell that is not already a string. *)
Class Runtime : Type := {
  parse_numeric : string -> numeral;
  render : cell -> cell
}.

Fixpoint position (c : string) (cols : list string) : option nat :=
  match cols with
  | [] => None
  | c' :: rest =>
      if String.eqb c c' then Some O
      else match position c rest with
           | Some i => Some (S i)
           | None => None
           end
  end.

(** [c in df.columns] *)
Definition has_column (df : DataFrame) (c : string) : bool :=
  match position c (columns df) with
  | Some _ => true
  | None => false
  end.

(** The cell of a row under label [c]. *)
Definition at_label (cols : list string) (c : string) (r : list cell) : cell :=
  match position c cols with
  | Some i => nth i r NaN
  | None => NaN
  end.

(** [df[c]] *)
Definition series (df : DataFrame) (c : string) : list cell :=
  map (at_label (columns df) c) (rows df).

Fixpoint set_nth {A} (i : nat) (x : A) (l : list A) : list A :=
  match l, i with
  | [], _ => []
  | _ :: t, O => x :: t
  | h :: t, S j => h :: set_nth j x t
  end.

Fixpoint assign_rows (i : nat) (rs : list (list cell)) (xs : list cell)
  : list (list cell) :=
  match rs, xs with
  | r :: rs', x :: xs' => set_nth i x r :: assign_rows i rs' xs'
  | _, _ => rs
  end.

(** [df[c] = xs] for a label the frame already has. *)
Definition assign (df : DataFrame) (c : string) (xs : list cell) : DataFrame :=
  match position c (columns df) with
  | Some i => mkFrame (columns df) (assign_rows i (rows df) xs)
  | None => df
  end.

Fixpoint remove_nth {A} (i : nat) (l : list A) : list A :=
  match l, i with
  | [], _ => []
  | _ :: t, O => t
  | h :: t, S j => h :: remove_nth j t
  end.

(** [df.drop(columns=[c])] for a label the frame has. *)
Definition drop (df : DataFrame) (c : string) : DataFrame :=
  match position c (columns df) with
  | Some i => mkFrame (remove_nth i (columns df)) (map (remove_nth i) (rows df))
  | None => df
  end.

(** [df.empty]: no rows or no columns. *)
Definition empty (df : DataFrame) : bool :=
  match rows df, columns df with
  | [], _ => true
  | _, [] => true
  | _, _ => false
  end.

(** Labels in order of first appearance. *)
Fixpoint add_labels (ks : list string) (cols : list string) : list string :=
  match ks with
  | [] => cols
  | k :: rest =>
      add_labels rest
        (if existsb (String.eqb k) cols then cols else cols ++ [k])
  end.

Definition labels_of (docs : list record) : list string :=
  fold_left (fun cols d => add_labels (map fst d) cols) docs [].

Definition row_of (cols : list string) (d : record) : list cell :=
  map (fun c => match assoc c d with
                | Some a => Val a
                | None => NaN
                end) cols.

(** [pd.DataFrame.from_records(docs)] *)
Definition from_records (docs : list record) : DataFrame :=
  let cols := labels_of docs in
  mkFrame cols (map (row_of cols) docs).

(** [df.loc[mask]] *)
Fixpoint keep {A} (mask : list bool) (l : list A) : list A :=
  match mask, l with
  | b :: mask', x :: l' => if b then x :: keep mask' l' else keep mask' l'
  | _, _ => []
  end.

Definition loc (df : DataFrame) (mask : list bool) : DataFrame :=
  mkFrame (columns df) (keep mask (rows df)).

(** [df.iloc[0:0]] *)
Definition iloc_none (df : DataFrame) : DataFrame :=
  mkFrame (columns df) [].

(** [s.isin(values)] *)
Definition isin (xs : list cell) (values : gset string) : list bool :=
  map (fun c => match c with
                | Val (SStr s) => bool_decide (s ∈ values)
                | _ => false
                end) xs.

(** [s == text] *)
Definition eq_str (xs : list cell) (text : string) : list bool :=
  map (fun c => match c with
                | Val (SStr s) => String.eqb s text
                | _ => false
                end) xs.

(** One cell against an integer bound: a missing cell compares false,
    a string cannot be ordered against an [int]. *)
Definition compare_cell (op : Z -> Z -> bool) (sym : string)
    (c : cell) (bound : Z) : result bool :=
  match c with
  | NaN => Ok false
  | Val SNone => Ok false
  | Val (SInt z) => Ok (op z bound)
  | Val (SStr _) =>
      Raise (TypeError
        ("'" ++ sym ++ "' not supported between instances of 'str' and 'int'"))
  end.

Fixpoint compare_series (op : Z -> Z -> bool) (sym : string)
    (xs : list cell) (bound : Z) : result (list bool) :=
  match xs with
  | [] => Ok []
  | c :: rest =>
      match compare_cell op sym c bound with
      | Raise e => Raise e
      | Ok b =>
          match compare_series op sym rest bound with
          | Raise e => Raise e
          | Ok bs => Ok (b :: bs)
          end
      end
  end.

(** [s >= bound] and [s <= bound] *)
Definition ge (xs : list cell) (bound : Z) : result (list bool) :=
  compare_series Z.geb ">=" xs bound.
Definition le (xs : list cell) (bound : Z) : result (list bool) :=
  compare_series Z.leb "<=" xs bound.

(** [m1 & m2] *)
Fixpoint mask_and (m1 m2 : list bool) : list bool :=
  match m1, m2 with
  | a :: m1', b :: m2' => (a && b) :: mask_and m1' m2'
  | _, _ => []
  end.

Section Cleaning.
Context {RT : Runtime}.

(** [pd.to_numeric(s, errors='coerce')] on one cell.  A numeric cell
    [Val (SInt z)] stands for the number [z], whether the column holds
    it as an integer or as a binary64 float; that is exact for
    [|z| <= 2^53].  Larger integers (which a float column rounds) and
    text read as [Inexact] are outside the embedding: the properties of
    the coercion are stated for records without them. *)
Definition to_numeric_coerce (c : cell) : cell :=
  match c with
  | NaN => NaN
  | Val SNone => NaN
  | Val (SInt z) => Val (SInt z)
  | Val (SStr s) =>
      match parse_numeric s with
      | Whole z => Val (SInt z)
      | NotNumeric => NaN
      | Inexact => NaN
      end
  end.

(** [s.astype(str)] on one cell. *)
Definition astype_str (c : cell) : cell :=
  match c with
  | Val (SStr s) => Val (SStr s)
  | _ => render c
  end.
End Cleaning.

(** [str.isspace] on a code unit. *)
Definition is_space (a : ascii) : bool :=
  let n := N_of_ascii a in
  (N.leb 9 n && N.leb n 13) || (N.leb 28 n && N.leb n 32).

Fixpoint lstrip (s : string) : string :=
  match s with
  | String a rest => if is_space a then lstrip rest else s
  | EmptyString => EmptyString
  end.

Fixpoint rstrip (s : string) : string :=
  match s with
  | EmptyString => EmptyString
  | String a rest =>
      match rstrip rest with
      | EmptyString => if is_space a then EmptyString else String a EmptyString
      | t => String a t
      end
  end.

(** [text.strip()] *)
Definition strip (s : string) : string := rstrip (lstrip s).

(** [s.str.strip()] on one cell: a cell that is not text becomes missing. *)
Definition str_strip (c : cell) : cell :=
  match c with
  | Val (SStr s) => Val (SStr (strip s))
  | _ => NaN
  end.

End Frame.
Export Frame.

(* ================================================================== *)
(** ** crud_module.py: class AnimalDatabaseManager *)
(* ================================================================== *)

Module Crud.

(** The tuple built by [_cache_key]: the sorted items of the query and
    the sorted field names (or [None]). *)
Definition cache_key : Type := list (string * value) * option (list string).

(** The same tuple once hashed: every component is a scalar. *)
Definition hkey : Type := list (string * scalar) * option (list string).

(** [hash] of the tuple of items walks its elements in order and fails
    at the first list or dict. *)
Fixpoint hash_items (items : list (string * value))
  : result (list (string * scalar)) :=
  match items with
  | [] => Ok []
  | (k, Atom a) :: rest =>
      match hash_items rest with
      | Ok q => Ok ((k, a) :: q)
      | Raise e => Raise e
      end
  | (_, VList _) :: _ => Raise (TypeError "unhashable type: 'list'")
  | (_, VDict _) :: _ => Raise (TypeError "unhashable type: 'dict'")
  end.

Definition hash_key (key : cache_key) : result hkey :=
  match hash_items (fst key) with
  | Ok q => Ok (q, snd key)
  | Raise e => Raise e
  end.

(** State of the process as far as the manager is concerned.
    [stdout] and [wire] grow at the end: [stdout] holds what [print(e)]
    wrote, [wire] the requests that reached the collection. *)
Record State (S : Type) : Type := mkState {
  animals : S;
  _read_cache : gmap hkey (list record);
  stdout : list exn;
  wire : list request
}.
Arguments mkState {S}.
Arguments animals {S}.
Arguments _read_cache {S}.
Arguments stdout {S}.
Arguments wire {S}.

Section Manager.
Context {S : Type} `{!Collection S} {RT : Runtime}.

Local Open Scope comp_scope.

Local Abbreviation Op := (M (State S)).

(** *** The driver calls, each one a round trip *)

Definition round_trip {A} (r : request) (op : S -> result A * S) : Op A :=
  fun w =>
    let '(a, s') := op (animals w) in
    (a, mkState s' (_read_cache w) (stdout w) (wire w ++ [r])).

Definition animals_insert_one (d : pydict) : Op scalar :=
  round_trip (InsertOne d) (insert_one d).
Definition list_cursor (c : Cursor) : Op (list record) :=
  round_trip (Fetch c) (fetch c).
Definition animals_update_many (q u : pydict) : Op Z :=
  round_trip (UpdateMany q u) (update_many q u).
Definition animals_delete_many (q : pydict) : Op Z :=
  round_trip (DeleteMany q) (delete_many q).

Definition print (e : exn) : Op unit :=
  modify (fun w =>
    mkState (animals w) (_read_cache w) (stdout w ++ [e]) (wire w)).

(** *** Internal helpers *)

(** [query or {}] *)
Definition _normalize_query (query : option pydict) : pydict :=
  match query with
  | Some ((_ :: _) as q) => q
  | _ => []
  end.

(** [{f: 1 for f in fields}] followed by [proj['_id'] = 1]. *)
Definition _normalize_fields (fields : option (list string))
  : option pydict :=
  match fields with
  | Some ((_ :: _) as fs) =>
      let proj :=
        fold_left (fun d f => assoc_set f (Atom (SInt 1)) d) fs [] in
      Some (assoc_set "_id" (Atom (SInt 1)) proj)
  | _ => None
  end.

Definition _cache_key (query : pydict) (fields : option (list string))
  : cache_key :=
  let q_tuple := sorted_items query in
  let f_tuple :=
    match fields with
    | Some ((_ :: _) as fs) => Some (sorted_strs fs)
    | _ => None
    end in
  (q_tuple, f_tuple).

(** [self._read_cache.get(key)]: the key is hashed first. *)
Definition _cache_get (key : cache_key) : Op (option (list record)) :=
  let* h := lift (hash_key key) in
  gets (fun w => _read_cache w !! h).

(** [self._read_cache[key] = docs] *)
Definition _cache_set (key : cache_key) (docs : list record) : Op unit :=
  let* h := lift (hash_key key) in
  modify (fun w =>
    mkState (animals w) (<[h := docs]> (_read_cache w)) (stdout w) (wire w)).

Definition clear_cache : Op unit :=
  modify (fun w => mkState (animals w) ∅ (stdout w) (wire w)).

(** *** CRUD operations *)

Definition create (document : value) : Op bool :=
  if negb (isinstance_dict document) || negb (truthy document)
  then raise (ValueError "Document must be a non-empty dictionary.")
  else
    try_except
      (let* inserted_id := animals_insert_one (dict_of document) in
       let* _ := clear_cache in
       ret (if truthy_scalar inserted_id then true else false))
      (fun e => let* _ := print e in ret false).

Definition read (query projection : option pydict)
    (sort : option sortspec) (limit : Z) (use_cache : bool)
  : Op (list record) :=
  let query := _normalize_query query in
  let fields :=
    match projection with
    | Some p =>
        Some (List.filter (fun k => negb (String.eqb k "_id")) (map fst p))
    | None => None
    end in
  let key := _cache_key query fields in
  let* cached := (if use_cache then _cache_get key else ret None) in
  match cached with
  | Some docs => ret docs
  | None =>
      try_except
        (let cursor := find query projection in
         let cursor :=
           match sort with
           | Some ((_ :: _) as s) => cursor_sort cursor s
           | _ => cursor
           end in
         let cursor :=
           if negb (Z.eqb limit 0) then cursor_limit cursor limit
           else cursor in
         let* docs := list_cursor cursor in
         let* _ := (if use_cache then _cache_set key docs else ret tt) in
         ret docs)
        (fun e => let* _ := print e in ret [])
  end.

Definition update (query update_data : value) : Op Z :=
  if negb (isinstance_dict query) || negb (truthy query)
  then raise (ValueError "Query must be a non-empty dictionary.")
  else if negb (isinstance_dict update_data) || negb (truthy update_data)
  then raise (ValueError "Update data must be a non-empty dictionary.")
  else
    try_except
      (let* modified_count :=
         animals_update_many (dict_of query) [("$set", update_data)] in
       let* _ := clear_cache in
       ret modified_count)
      (fun e => let* _ := print e in ret 0).

Definition delete (query : value) : Op Z :=
  if negb (isinstance_dict query) || negb (truthy query)
  then raise (ValueError "Query must be a non-empty dictionary.")
  else
    try_except
      (let* deleted_count := animals_delete_many (dict_of query) in
       let* _ := clear_cache in
       ret deleted_count)
      (fun e => let* _ := print e in ret 0).

(** *** Higher-level helpers *)

Definition _clean_df (df : DataFrame) : DataFrame :=
  if empty df then df
  else
    let df :=
      if has_column df "_id"
      then drop (assign df "_id" (map astype_str (series df "_id"))) "_id"
      else df in
    let df :=
      fold_left
        (fun df col =>
           if has_column df col
           then assign df col (map to_numeric_coerce (series df col))
           else df)
        ["age_upon_outcome_in_weeks"; "location_lat"; "location_long"] df in
    let df :=
      fold_left
        (fun df col =>
           if has_column df col
           then assign df col
                  (map str_strip (map astype_str (series df col)))
           else df)
        ["name"; "breed"; "animal_type"; "sex_upon_outcome"] df in
    df.

Definition read_df (query : option pydict) (fields : option (list string))
    (force_refresh : bool) : Op DataFrame :=
  let projection := _normalize_fields fields in
  let* docs := read query projection None 0 (negb force_refresh) in
  let df := from_records docs in
  let df := _clean_df df in
  ret df.

End Manager.

End Crud.
Export Crud.


(* ================================================================== *)
(** ** app.py: filter rules as data *)
(* ================================================================== *)

Module App.

(** The fields the dashboard asks for. *)
Definition REQUIRED_FIELDS : list string :=
  [ "name"; "breed"; "animal_type"; "sex_upon_outcome";
    "age_upon_outcome_in_weeks"; "location_lat"; "location_long" ].

Record FilterSpec : Type := mkSpec {
  breeds : gset string;
  sex : string;
  age_min : Z;
  age_max : Z
}.

Definition FILTER_SPECS : gmap string FilterSpec :=
  <["WATER" :=
      mkSpec {[ "Labrador Retriever Mix"; "Chesapeake Bay Retriever";
                "Newfoundland" ]}
             "Intact Female" 26 156]>
  (<["MOUNTAIN" :=
      mkSpec {[ "German Shepherd"; "Alaskan Malamute";
                "Old English Sheepdog"; "Siberian Husky"; "Rottweiler" ]}
             "Intact Male" 26 156]>
  (<["DISASTER" :=
      mkSpec {[ "Doberman Pinscher"; "German Shepherd"; "Golden Retriever";
                "Bloodhound"; "Rottweiler" ]}
             "Intact Male" 20 300]> ∅)).

(** [FILTER_SPECS[spec_key]] *)
Definition lookup_spec (spec_key : string) : result FilterSpec :=
  match FILTER_SPECS !! spec_key with
  | Some spec => Ok spec
  | None => Raise (KeyError spec_key)
  end.

Definition spec_to_mongo_query (spec_key : string) : result pydict :=
  match lookup_spec spec_key with
  | Raise e => Raise e
  | Ok spec =>
      Ok [ ("animal_type", Atom (SStr "Dog"));
           ("breed",
            VDict [("$in",
                    VList (map (fun b => Atom (SStr b))
                               (sorted_strs (elements (breeds spec)))))]);
           ("sex_upon_outcome", Atom (SStr (sex spec)));
           ("age_upon_outcome_in_weeks",
            VDict [("$gte", Atom (SInt (age_min spec)));
                   ("$lte", Atom (SInt (age_max spec)))]) ]
  end.

Definition apply_spec_filter (df : DataFrame) (spec_key : string)
  : result DataFrame :=
  match lookup_spec spec_key with
  | Raise e => Raise e
  | Ok spec =>
      if negb (forallb (has_column df)
                 ["breed"; "sex_upon_outcome"; "age_upon_outcome_in_weeks"])
      then Ok (iloc_none df)
      else
        let m_breed := isin (series df "breed") (breeds spec) in
        let m_sex := eq_str (series df "sex_upon_outcome") (sex spec) in
        match ge (series df "age_upon_outcome_in_weeks") (age_min spec) with
        | Raise e => Raise e
        | Ok m_min =>
            match le (series df "age_upon_outcome_in_weeks") (age_max spec) with
            | Raise e => Raise e
            | Ok m_max =>
                let mask :=
                  mask_and (mask_and (mask_and m_breed m_sex) m_min) m_max in
                Ok (loc df mask)
            end
        end
  end.

End App.
Export App.

(* ================================================================== *)
(** ** Calls on the manager, seen from a caller *)
(* ================================================================== *)

Module Calls.

Inductive call : Type :=
| Create (document : value)
| Read (query projection : option pydict) (sort : option sortspec)
       (limit : Z) (use_cache : bool)
| Update (query update_data : value)
| Delete (query : value).

Inductive answer : Type :=
| Flag (b : bool)
| Docs (l : list record)
| Count (n : Z).

(** The result each operation degrades to on a store fault. *)
Definition neutral (c : call) : answer :=
  match c with
  | Create _ => Flag false
  | Read _ _ _ _ _ => Docs []
  | Update _ _ => Count 0
  | Delete _ => Count 0
  end.

Definition is_write (c : call) : bool :=
  match c with
  | Read _ _ _ _ _ => false
  | _ => true
  end.

(** A non-empty mapping. *)
Definition is_mapping (v : value) : bool := isinstance_dict v && truthy v.

(** The arguments pass the checks at the head of the operation. *)
Definition accepted (c : call) : bool :=
  match c with
  | Create d => is_mapping d
  | Read _ _ _ _ _ => true
  | Update q u => is_mapping q && is_mapping u
  | Delete q => is_mapping q
  end.

(** The field names [read] derives from a projection. *)
Definition field_names (projection : option pydict) : option (list string) :=
  match projection with
  | Some p => Some (List.filter (fun k => negb (String.eqb k "_id")) (map fst p))
  | None => None
  end.

Definition field_list (projection : option pydict) : list string :=
  match field_names projection with
  | Some fs => fs
  | None => []
  end.

(** The cursor [read] consumes. *)
Definition request_cursor (query projection : option pydict)
    (sort : option sortspec) (limit : Z) : Cursor :=
  let cursor := find (match query with
                      | Some ((_ :: _) as q) => q
                      | _ => []
                      end) projection in
  let cursor :=
    match sort with
    | Some ((_ :: _) as s) => cursor_sort cursor s
    | _ => cursor
    end in
  if negb (Z.eqb limit 0) then cursor_limit cursor limit else cursor.

(** The request an accepted call sends when it reaches the collection. *)
Definition request_of (c : call) : request :=
  match c with
  | Create d => InsertOne (dict_of d)
  | Read q p s l _ => Fetch (request_cursor q p s l)
  | Update q u => UpdateMany (dict_of q) [("$set", u)]
  | Delete q => DeleteMany (dict_of q)
  end.

Section WithCollection.
Context {S : Type} `{!Collection S}.

Local Open Scope comp_scope.

Definition perform (c : call) : M (State S) answer :=
  match c with
  | Create d => let* b := create d in ret (Flag b)
  | Read q p s l u => let* docs := read q p s l u in ret (Docs docs)
  | Update q u => let* n := update q u in ret (Count n)
  | Delete q => let* n := delete q in ret (Count n)
  end.

(** The key under which [read] looks the request up. *)
Definition request_key (query projection : option pydict) : cache_key :=
  _cache_key (_normalize_query query) (field_names projection).

(** The fault, if any, with which the collection meets a request. *)
Definition fault_of (r : request) (s : S) : option exn :=
  match r with
  | InsertOne d =>
      match fst (insert_one d s) with Raise e => Some e | Ok _ => None end
  | Fetch c =>
      match fst (fetch c s) with Raise e => Some e | Ok _ => None end
  | UpdateMany q u =>
      match fst (update_many q u s) with Raise e => Some e | Ok _ => None end
  | DeleteMany q =>
      match fst (delete_many q s) with Raise e => Some e | Ok _ => None end
  end.

(** The state of the collection after a request. *)
Definition after (r : request) (s : S) : S :=
  match r with
  | InsertOne d => snd (insert_one d s)
  | Fetch c => snd (fetch c s)
  | UpdateMany q u => snd (update_many q u s)
  | DeleteMany q => snd (delete_many q s)
  end.

(** The cache holds [docs] for the request. *)
Definition cached (w : State S) (query projection : option pydict)
    (docs : list record) : Prop :=
  exists h, hash_key (request_key query projection) = Ok h /\
            _read_cache w !! h = Some docs.

(** The call is not answered from the cache: it goes to the collection. *)
Definition misses (w : State S) (c : call) : bool :=
  match c with
  | Read q p _ _ true =>
      match hash_key (request_key q p) with
      | Ok h => match _read_cache w !! h with
                | Some _ => false
                | None => true
                end
      | Raise _ => false
      end
  | _ => true
  end.
End WithCollection.

End Calls.
Export Calls.

(* ================================================================== *)
(** ** What a filter rule asks of a row *)
(* ================================================================== *)

Module Rules.

(** The cell can be compared with an integer bound. *)
Definition numeric_or_missing (c : cell) : bool :=
  match c with
  | Val (SStr _) => false
  | _ => true
  end.

Definition breed_allowed (spec : FilterSpec) (c : cell) : bool :=
  match c with
  | Val (SStr b) => bool_decide (b ∈ breeds spec)
  | _ => false
  end.

Definition sex_required (spec : FilterSpec) (c : cell) : bool :=
  match c with
  | Val (SStr x) => String.eqb x (sex spec)
  | _ => false
  end.

Definition age_in_range (spec : FilterSpec) (c : cell) : bool :=
  match c with
  | Val (SInt z) => Z.leb (age_min spec) z && Z.leb z (age_max spec)
  | _ => false
  end.

(** Breed in the allowed set, sex equal to the required value, age
    within the inclusive range; a missing cell fails its test. *)
Definition satisfies (spec : FilterSpec) (cols : list string)
    (r : list cell) : bool :=
  breed_allowed spec (at_label cols "breed" r)
  && sex_required spec (at_label cols "sex_upon_outcome" r)
  && age_in_range spec (at_label cols "age_upon_outcome_in_weeks" r).

(** The cell a record gives under a label. *)
Definition cell_of (o : option scalar) : cell :=
  match o with
  | Some a => Val a
  | None => NaN
  end.

(** The same three tests, read off the record. *)
Definition wanted (spec : FilterSpec) (d : record) : bool :=
  breed_allowed spec (cell_of (assoc "breed" d))
  && sex_required spec (cell_of (assoc "sex_upon_outcome" d))
  && age_in_range spec (cell_of (assoc "age_upon_outcome_in_weeks" d)).

Definition is_dog (d : record) : bool :=
  match assoc "animal_type" d with
  | Some (SStr t) => String.eqb t "Dog"
  | _ => false
  end.

Definition age_comparable (d : record) : bool :=
  numeric_or_missing (cell_of (assoc "age_upon_outcome_in_weeks" d)).

(** The query the specification describes for a rule whose allowed
    breeds, in sorted order, are [bs]. *)
Definition rule_query (spec : FilterSpec) (bs : list string) : pydict :=
  [ ("animal_type", Atom (SStr "Dog"));
    ("breed", VDict [("$in", VList (map (fun b => Atom (SStr b)) bs))]);
    ("sex_upon_outcome", Atom (SStr (sex spec)));
    ("age_upon_outcome_in_weeks",
     VDict [("$gte", Atom (SInt (age_min spec)));
            ("$lte", Atom (SInt (age_max spec)))]) ].

(** *** Cleaning, row by row *)

Definition numeric_fields : list string :=
  ["age_upon_outcome_in_weeks"; "location_lat"; "location_long"].

Definition text_fields : list string :=
  ["name"; "breed"; "animal_type"; "sex_upon_outcome"].

(** Apply [f] to the cell of a row under label [col], if there is one. *)
Definition on_column (cols : list string) (col : string) (f : cell -> cell)
    (r : list cell) : list cell :=
  match position col cols with
  | Some i => set_nth i (f (at_label cols col r)) r
  | None => r
  end.

Definition clean_columns (cols : list string) : list string :=
  match position "_id" cols with
  | Some k => remove_nth k cols
  | None => cols
  end.

Section CleanRow.
Context {RT : Runtime}.

Definition as_text (c : cell) : cell := str_strip (astype_str c).

Definition clean_row (cols : list string) (r : list cell) : list cell :=
  let r1 :=
    match position "_id" cols with
    | Some k => remove_nth k (on_column cols "_id" astype_str r)
    | None => r
    end in
  let cols1 := clean_columns cols in
  fold_left (fun r col => on_column cols1 col as_text r) text_fields
    (fold_left (fun r col => on_column cols1 col to_numeric_coerce r)
       numeric_fields r1).

(** What cleaning does to a cell, by the label it stands under. *)
Definition clean_cell (c : string) (x : cell) : cell :=
  fold_left (fun x col => if String.eqb c col then as_text x else x)
    text_fields
    (fold_left (fun x col => if String.eqb c col then to_numeric_coerce x
                             else x)
       numeric_fields x).


End CleanRow.

(** *** White space at the ends of a text *)

Definition blank (s : string) : bool :=
  forallb is_space (list_ascii_of_string s).

Definition starts_blank (s : string) : bool :=
  match s with
  | String a _ => is_space a
  | EmptyString => false
  end.

Fixpoint ends_blank (s : string) : bool :=
  match s with
  | EmptyString => false
  | String a EmptyString => is_space a
  | String _ rest => ends_blank rest
  end.

(** [t] is [s] without the white space at its two ends. *)
Definition trimmed (s t : string) : Prop :=
  exists l r,
    s = l ++ t ++ r /\
    blank l = true /\ blank r = true /\
    starts_blank t = false /\ ends_blank t = false.

End Rules.
Export Rules.

(* ================================================================== *)
(** ** A small shelter *)
(* ================================================================== *)

Module Sample.
Import MemStore.

Definition rex : record :=
  [ ("_id", SInt 1); ("name", SStr " Rex "); ("animal_type", SStr "Dog");
    ("breed", SStr "Newfoundland"); ("sex_upon_outcome", SStr "Intact Female");
    ("age_upon_outcome_in_weeks", SInt 100) ].

Definition bo : record :=
  [ ("_id", SInt 2); ("name", SStr "Bo"); ("animal_type", SStr "Dog");
    ("breed", SStr "Poodle"); ("sex_upon_outcome", SStr "Intact Female");
    ("age_upon_outcome_in_weeks", SInt 40) ].

Definition tom : record :=
  [ ("_id", SInt 3); ("name", SStr "Tom"); ("animal_type", SStr "Cat");
    ("breed", SStr "Newfoundland"); ("sex_upon_outcome", SStr "Intact Female");
    ("age_upon_outcome_in_weeks", SInt 30) ].

(** The collection answers. *)
Definition fresh : State store :=
  mkState (mkStore [rex; bo; tom] 4 true) ∅ [] [].

(** The collection cannot be reached. *)
Definition unplugged : State store :=
  mkState (mkStore [rex; bo; tom] 4 false) ∅ [] [].

Definition dogs : pydict := [("animal_type", Atom (SStr "Dog"))].

Definition female_dogs : pydict :=
  [ ("animal_type", Atom (SStr "Dog"));
    ("sex_upon_outcome", Atom (SStr "Intact Female")) ].

Definition dogs_female : pydict :=
  [ ("sex_upon_outcome", Atom (SStr "Intact Female"));
    ("animal_type", Atom (SStr "Dog")) ].

Definition name_breed : option pydict :=
  Some [("name", Atom (SInt 1)); ("breed", Atom (SInt 1))].

Definition breed_name_id : option pydict :=
  Some [ ("breed", Atom (SInt 1)); ("name", Atom (SInt 1));
         ("_id", Atom (SInt 1)) ].

Definition oldest_first : option sortspec :=
  Some [("age_upon_outcome_in_weeks", -1)].

(** The cache entry a read of [dogs] leaves behind. *)
Definition dogs_key : hkey := ([("animal_type", SStr "Dog")], None).

(** The collection has gone away after a read of [dogs] was cached. *)
Definition unplugged_warm : State store :=
  mkState (mkStore [rex; bo; tom] 4 false) (<[dogs_key := [rex; bo]]> ∅) [] [].

(** An animal whose age was entered as text. *)
Definition ivy : record :=
  [ ("_id", SInt 7); ("name", SStr "Ivy"); ("animal_type", SStr "Dog");
    ("breed", SStr "Newfoundland"); ("sex_upon_outcome", SStr "Intact Female");
    ("age_upon_outcome_in_weeks", SStr "unknown") ].

Definition kennel : State store :=
  mkState (mkStore [rex; ivy; bo] 8 true) ∅ [] [].

Definition is_digit (a : ascii) : bool :=
  let n := N_of_ascii a in N.leb 48 n && N.leb n 57.

(** A reading for [to_numeric]: a decimal numeral is its integer, other
    text with a digit in it is left to the numbers the embedding does
    not hold, and text without a digit holds no number. *)
Definition decimal (s : string) : numeral :=
  match NilZero.int_of_string s with
  | Some i =>
      if Z.leb (Z.abs (Z.of_int i)) (2 ^ 53) then Whole (Z.of_int i)
      else Inexact
  | None =>
      if existsb is_digit (list_ascii_of_string s) then Inexact
      else NotNumeric
  end.

(** [str] of a number, of [None] and of [nan]. *)
Definition str_of (c : cell) : cell :=
  match c with
  | NaN => Val (SStr "nan")
  | Val SNone => Val (SStr "None")
  | Val (SInt z) => Val (SStr (NilZero.string_of_int (Z.to_int z)))
  | Val (SStr s) => Val (SStr s)
  end.

Definition runtime : Runtime :=
  {| parse_numeric := decimal; render := str_of |}.

Definition water : FilterSpec :=
  mkSpec {[ "Labrador Retriever Mix"; "Chesapeake Bay Retriever";
            "Newfoundland" ]}
         "Intact Female" 26 156.

(** The records of the specification's example, and the same two
    records entered as dogs. *)
Definition spec_newfoundland : record :=
  [ ("breed", SStr "Newfoundland"); ("sex_upon_outcome", SStr "Intact Female");
    ("age_upon_outcome_in_weeks", SInt 100) ].

Definition spec_poodle : record :=
  [ ("breed", SStr "Poodle"); ("sex_upon_outcome", SStr "Intact Female");
    ("age_upon_outcome_in_weeks", SInt 100) ].

Definition dog_newfoundland : record :=
  ("animal_type", SStr "Dog") :: spec_newfoundland.

Definition dog_poodle : record :=
  ("animal_type", SStr "Dog") :: spec_poodle.

End Sample.

(* ================================================================== *)
(** ** The earlier manager and its filter queries

    [crud_module.py] and [app.py] of the Software Design enhancement:
    the manager before caching and projection, and the three rescue
    queries written out by hand. *)
(* ================================================================== *)

Module Legacy.

Section Manager.
Context {S : Type} `{!Collection S}.

Local Open Scope comp_scope.

Local Abbreviation Op := (M (State S)).

Definition create (document : value) : Op bool :=
  if negb (isinstance_dict document) || negb (truthy document)
  then raise (ValueError "Document must be a non-empty dictionary.")
  else
    try_except
      (let* inserted_id := animals_insert_one (dict_of document) in
       ret (if truthy_scalar inserted_id then true else false))
      (fun e => let* _ := print e in ret false).

Definition read (query : option pydict) : Op (list record) :=
  let query := match query with
               | None => []
               | Some q => q
               end in
  try_except
    (let cursor := find query None in
     list_cursor cursor)
    (fun e => let* _ := print e in ret []).

Definition update (query update_data : value) : Op Z :=
  if negb (isinstance_dict query) || negb (truthy query)
  then raise (ValueError "Query must be a non-empty dictionary.")
  else if negb (isinstance_dict update_data) || negb (truthy update_data)
  then raise (ValueError "Update data must be a non-empty dictionary.")
  else
    try_except
      (animals_update_many (dict_of query) [("$set", update_data)])
      (fun e => let* _ := print e in ret 0).

Definition delete (query : value) : Op Z :=
  if negb (isinstance_dict query) || negb (truthy query)
  then raise (ValueError "Query must be a non-empty dictionary.")
  else
    try_except
      (animals_delete_many (dict_of query))
      (fun e => let* _ := print e in ret 0).

(** A call on the earlier manager; a read takes its query only. *)
Definition perform (c : call) : Op answer :=
  match c with
  | Create d => let* b := create d in ret (Flag b)
  | Read q _ _ _ _ => let* docs := read q in ret (Docs docs)
  | Update q u => let* n := update q u in ret (Count n)
  | Delete q => let* n := delete q in ret (Count n)
  end.

End Manager.

(** The call on the later manager that leaves caching, projection,
    sorting and limiting aside. *)
Definition plain (c : call) : call :=
  match c with
  | Read q _ _ _ _ => Read q None None 0 false
  | _ => c
  end.

Definition in_list (bs : list string) : value :=
  VDict [("$in", VList (map (fun b => Atom (SStr b)) bs))].

Definition between (lo hi : Z) : value :=
  VDict [("$gte", Atom (SInt lo)); ("$lte", Atom (SInt hi))].

Definition water_rescue_query : pydict :=
  [ ("animal_type", Atom (SStr "Dog"));
    ("breed", in_list ["Labrador Retriever Mix"; "Chesapeake Bay Retriever";
                       "Newfoundland"]);
    ("sex_upon_outcome", Atom (SStr "Intact Female"));
    ("age_upon_outcome_in_weeks", between 26 156) ].

Definition mountain_rescue_query : pydict :=
  [ ("animal_type", Atom (SStr "Dog"));
    ("breed", in_list ["German Shepherd"; "Alaskan Malamute";
                       "Old English Sheepdog"; "Siberian Husky";
                       "Rottweiler"]);
    ("sex_upon_outcome", Atom (SStr "Intact Male"));
    ("age_upon_outcome_in_weeks", between 26 156) ].

Definition disaster_tracking_query : pydict :=
  [ ("animal_type", Atom (SStr "Dog"));
    ("breed", in_list ["Doberman Pinscher"; "German Shepherd";
                       "Golden Retriever"; "Bloodhound"; "Rottweiler"]);
    ("sex_upon_outcome", Atom (SStr "Intact Male"));
    ("age_upon_outcome_in_weeks", between 20 300) ].

(** The query [update_dashboard] reads with for a radio value; any
    other value reads everything. *)
Definition dashboard_query (filter_type : option string) : pydict :=
  match filter_type with
  | Some ft =>
      if String.eqb ft "WATER" then water_rescue_query
      else if String.eqb ft "MOUNTAIN" then mountain_rescue_query
      else if String.eqb ft "DISASTER" then disaster_tracking_query
      else []
  | None => []
  end.

End Legacy.

(* ================================================================== *)
(** ** app.py: the base table and the filtered tables *)
(* ================================================================== *)

Module Dashboard.

Definition USE_DB_FILTERS : bool := false.

Definition DEFAULT_SORT_FIELD : string := "age_upon_outcome_in_weeks".
Definition DEFAULT_SORT_ASC : bool := true.

(** The ages of a frame can be ordered and compared with a number. *)
Definition comparable (df : DataFrame) (by_ : string) : Prop :=
  Forall (fun c => numeric_or_missing c = true) (series df by_).

(** [df.sort_values(by=.., ascending=.., ignore_index=True)].  The
    order among rows of equal key is the sorting routine's; what the
    embedding takes from it is that a frame whose key column can be
    ordered comes back with the same labels and the same rows in some
    order. *)
Class Sorting : Type := {
  sort_values : DataFrame -> string -> bool -> result DataFrame;
  sort_values_rows :
    forall df by_ asc,
      comparable df by_ ->
      exists out,
        sort_values df by_ asc = Ok out /\
        columns out = columns df /\
        rows out ≡ₚ rows df
}.

(** [c.upper()] on a code unit below 128. *)
Definition upper_ascii (a : ascii) : ascii :=
  let n := N_of_ascii a in
  if N.leb 97 n && N.leb n 122 then ascii_of_N (n - 32) else a.

(** [s.upper()]; strings are sequences of code units below 128. *)
Fixpoint upper (s : string) : string :=
  match s with
  | EmptyString => EmptyString
  | String a rest => String (upper_ascii a) (upper rest)
  end.

(** [(filter_type or "RESET").upper()] *)
Definition normalize_filter (filter_type : option string) : string :=
  upper (match filter_type with
         | Some ((String _ _) as ft) => ft
         | _ => "RESET"
         end).

(** [df.to_dict('records')] *)
Definition to_dict_records (df : DataFrame) : list (list (string * cell)) :=
  map (fun r => map (fun c => (c, at_label (columns df) c r)) (columns df))
      (rows df).

(** The process: the manager, and the memo of filtered tables. *)
Record App (S : Type) : Type := mkApp {
  db : State S;
  _filter_cache : gmap string DataFrame
}.
Arguments mkApp {S}.
Arguments db {S}.
Arguments _filter_cache {S}.

Section WithManager.
Context {S : Type} `{!Collection S} {RT : Runtime} {ST : Sorting}.

Local Open Scope comp_scope.

Definition load_base_df (force_refresh : bool) : M (State S) DataFrame :=
  let* df_all := read_df (Some []) (Some REQUIRED_FIELDS) force_refresh in
  if has_column df_all DEFAULT_SORT_FIELD
  then lift (sort_values df_all DEFAULT_SORT_FIELD DEFAULT_SORT_ASC)
  else ret df_all.

(** A call on the manager, from the application. *)
Definition on_db {A} (c : M (State S) A) : M (App S) A :=
  fun st =>
    let '(r, w') := c (db st) in
    (r, mkApp w' (_filter_cache st)).

(** [get_filtered_df], with the two module-level values it reads. *)
Definition get_filtered_df (use_db_filters : bool) (BASE_DF : DataFrame)
    (filter_type : option string) : M (App S) DataFrame :=
  let filter_type := normalize_filter filter_type in
  if String.eqb filter_type "RESET" then ret BASE_DF
  else
    let* memo := gets _filter_cache in
    match memo !! filter_type with
    | Some df => ret df
    | None =>
        let* df_f :=
          (if use_db_filters
           then
             let* q := lift (spec_to_mongo_query filter_type) in
             on_db (read_df (Some q) (Some REQUIRED_FIELDS) false)
           else lift (apply_spec_filter BASE_DF filter_type)) in
        let* _ :=
          modify (fun st =>
            mkApp (db st) (<[filter_type := df_f]> (_filter_cache st))) in
        ret df_f
    end.

(** The memo holds, under each name, what the rule of that name keeps
    of the base table. *)
Definition memo_sound (base : DataFrame) (st : App S) : Prop :=
  forall k df, _filter_cache st !! k = Some df ->
               apply_spec_filter base k = Ok df.

Definition update_dashboard (use_db_filters : bool) (BASE_DF : DataFrame)
    (filter_type : option string)
  : M (App S) (list (list (string * cell)) * list (list (string * cell))) :=
  let* df_local := get_filtered_df use_db_filters BASE_DF filter_type in
  let records := to_dict_records df_local in
  ret (records, records).

End WithManager.

End Dashboard.
Export Dashboard.

(* ================================================================== *)
(** ** The dashboard on the small shelter *)
(* ================================================================== *)

Module Showroom.
Import MemStore Sample.

(** Rows by the number under a label, missing cells last. *)
Definition sort_key (cols : list string) (by_ : string) (r : list cell)
  : option Z :=
  match at_label cols by_ r with
  | Val (SInt z) => Some z
  | _ => None
  end.

Definition row_le (cols : list string) (by_ : string) (asc : bool)
    (r1 r2 : list cell) : Prop :=
  match sort_key cols by_ r1, sort_key cols by_ r2 with
  | Some a, Some b => if asc then (a <= b)%Z else (b <= a)%Z
  | Some _, None => True
  | None, Some _ => False
  | None, None => True
  end.

#[export] Instance row_le_dec cols by_ asc : RelDecision (row_le cols by_ asc).
Proof.
  intros r1 r2. unfold row_le.
  destruct (sort_key cols by_ r1), (sort_key cols by_ r2), asc; apply _.
Defined.

Definition sort_by_key (df : DataFrame) (by_ : string) (asc : bool)
  : result DataFrame :=
  if forallb numeric_or_missing (series df by_)
  then Ok (mkFrame (columns df)
             (merge_sort (row_le (columns df) by_ asc) (rows df)))
  else Raise (TypeError
                "'<' not supported between instances of 'str' and 'int'").

Lemma sort_by_key_rows (df : DataFrame) (by_ : string) (asc : bool) :
  comparable df by_ ->
  exists out,
    sort_by_key df by_ asc = Ok out /\
    columns out = columns df /\
    rows out ≡ₚ rows df.
Proof.
  intros Hc. unfold sort_by_key.
  assert (forallb numeric_or_missing (series df by_) = true) as ->.
  { apply forallb_forall. by apply List.Forall_forall. }
  eexists. split_and!; [reflexivity | done |].
  apply merge_sort_Permutation.
Qed.

Definition sorting : Sorting :=
  {| sort_values := sort_by_key; sort_values_rows := sort_by_key_rows |}.

(** A read of the dogs is cached; the collection answers. *)
Definition warm : State store :=
  mkState (mkStore [rex; bo; tom] 4 true) (<[dogs_key := [rex; bo]]> ∅) [] [].

(** The cache still holds one dog; the collection has two. *)
Definition stale : State store :=
  mkState (mkStore [rex; bo; tom] 4 true) (<[dogs_key := [rex]]> ∅) [] [].

(** A document that brings its own identifier, zero. *)
Definition zed : value :=
  VDict [("_id", Atom (SInt 0)); ("name", Atom (SStr "Zed"))].

(** Names and breeds of everything were read into the table cache. *)
Definition names_key : hkey := ([], Some ["breed"; "name"]).

Definition names : list record :=
  [ [("_id", SInt 1); ("name", SStr " Rex "); ("breed", SStr "Newfoundland")];
    [("_id", SInt 2); ("name", SStr "Bo"); ("breed", SStr "Poodle")] ].

Definition tabled : State store :=
  mkState (mkStore [rex; bo; tom] 4 true) (<[names_key := names]> ∅) [] [].

(** The application at start, with the shelter as its base table. *)
Definition base : DataFrame := from_records [rex; bo; tom].

Definition opened : App store := mkApp fresh ∅.

(** The application after the water rescue table was asked for. *)
Definition filtered : App store :=
  mkApp fresh (<["WATER" := from_records [rex; tom]]> ∅).

(** The names in the kennel, as [read_df] shows them. *)
Definition kennel_names : DataFrame :=
  mkFrame ["name"] [[Val (SStr "Rex")]; [Val (SStr "Ivy")]; [Val (SStr "Bo")]].

(** The kennel as [read_df] shows it for the dashboard's fields. *)
Definition kennel_frame : DataFrame :=
  mkFrame
    ["name"; "animal_type"; "breed"; "sex_upon_outcome";
     "age_upon_outcome_in_weeks"]
    [ [Val (SStr "Rex"); Val (SStr "Dog"); Val (SStr "Newfoundland");
       Val (SStr "Intact Female"); Val (SInt 100)];
      [Val (SStr "Ivy"); Val (SStr "Dog"); Val (SStr "Newfoundland");
       Val (SStr "Intact Female"); NaN];
      [Val (SStr "Bo"); Val (SStr "Dog"); Val (SStr "Poodle");
       Val (SStr "Intact Female"); Val (SInt 40)] ].

(** The kennel as [load_base_df] returns it: youngest first, the
    animal without an age last. *)
Definition kennel_base : DataFrame :=
  mkFrame
    ["name"; "animal_type"; "breed"; "sex_upon_outcome";
     "age_upon_outcome_in_weeks"]
    [ [Val (SStr "Bo"); Val (SStr "Dog"); Val (SStr "Poodle");
       Val (SStr "Intact Female"); Val (SInt 40)];
      [Val (SStr "Rex"); Val (SStr "Dog"); Val (SStr "Newfoundland");
       Val (SStr "Intact Female"); Val (SInt 100)];
      [Val (SStr "Ivy"); Val (SStr "Dog"); Val (SStr "Newfoundland");
       Val (SStr "Intact Female"); NaN] ].


(** A cat of a breed the water rule does not allow. *)
Definition felix : record :=
  [ ("_id", SInt 4); ("name", SStr "Felix"); ("animal_type", SStr "Cat");
    ("breed", SStr "Siamese"); ("sex_upon_outcome", SStr "Intact Female");
    ("age_upon_outcome_in_weeks", SInt 60) ].

End Showroom.

(* ================================================================== *)
(** * Properties *)
(* ================================================================== *)

(** ** Order on strings *)

Lemma str_le_cases (a b : string) :
  str_le a b <-> String.compare a b = Lt \/ a = b.
Proof.
  unfold str_le, String.leb. split.
  - destruct (String.compare a b) eqn:E; intros Hle; try discriminate.
    + right. by apply String.compare_eq_iff.
    + by left.
  - intros [-> | ->]; [done |].
    pose proof (proj2 (String_as_OT.cmp_eq b b) eq_refl) as Hb.
    unfold String_as_OT.cmp in Hb. by rewrite Hb.
Qed.

#[export] Instance str_le_total : Total str_le.
Proof. intros a b. apply String.leb_total. Qed.

#[export] Instance str_le_antisym : AntiSymm (=) str_le.
Proof. intros a b. apply String.leb_antisym. Qed.

#[export] Instance str_le_trans : Transitive str_le.
Proof.
  intros a b c [Hab | ->]%str_le_cases [Hbc | ->]%str_le_cases;
    apply str_le_cases; auto.
  left. apply String_as_OT.cmp_lt.
  eapply String_as_OT.lt_trans; by apply String_as_OT.cmp_lt.
Qed.

Lemma sorted_strs_sorted (xs : list string) : Sorted str_le (sorted_strs xs).
Proof. apply Sorted_merge_sort, _. Qed.

Lemma sorted_strs_perm (xs : list string) : sorted_strs xs ≡ₚ xs.
Proof. apply merge_sort_Permutation. Qed.

(** Sorting forgets the order in which the names were given. *)
Lemma sorted_strs_of_perm (xs ys : list string) :
  xs ≡ₚ ys -> sorted_strs xs = sorted_strs ys.
Proof.
  intros Hp. apply (Sorted_unique str_le); try apply sorted_strs_sorted.
  by rewrite !sorted_strs_perm.
Qed.

Lemma sorted_items_perm {A} (d : list (string * A)) : sorted_items d ≡ₚ d.
Proof. apply merge_sort_Permutation. Qed.

(* ================================================================== *)
(** ** The manager: how [read] and the writes unfold *)
(* ================================================================== *)

Section ManagerFacts.
Context {S : Type} `{!Collection S}.
Implicit Types (w : State S) (q p : option pydict) (docs : list record).

Local Open Scope comp_scope.

(** [read], with the key and the cursor named. *)
Lemma read_eq q p so li uc :
  read q p so li uc =
    (let* hit := (if uc then _cache_get (request_key q p) else ret None) in
     match hit with
     | Some docs => ret docs
     | None =>
         try_except
           (let* docs := list_cursor (request_cursor q p so li) in
            let* _ := (if uc then _cache_set (request_key q p) docs
                       else ret tt) in
            ret docs)
           (fun e => let* _ := print e in ret [])
     end).
Proof. reflexivity. Qed.

Lemma read_unhashable w q p so li e :
  hash_key (request_key q p) = Raise e ->
  read q p so li true w = (Raise e, w).
Proof.
  intros Hk. rewrite read_eq. unfold bind, _cache_get, lift.
  by rewrite Hk.
Qed.

Lemma read_hit w q p so li docs :
  cached w q p docs ->
  read q p so li true w = (Ok docs, w).
Proof.
  intros (h & Hk & Hc). rewrite read_eq.
  unfold bind, _cache_get, lift, gets. rewrite Hk. simpl. by rewrite Hc.
Qed.

Lemma read_miss_answer w q p so li h docs s' :
  hash_key (request_key q p) = Ok h ->
  _read_cache w !! h = None ->
  fetch (request_cursor q p so li) (animals w) = (Ok docs, s') ->
  read q p so li true w =
    (Ok docs,
     mkState s' (<[h := docs]> (_read_cache w)) (stdout w)
             (wire w ++ [Fetch (request_cursor q p so li)])).
Proof.
  intros Hk Hc Hf. rewrite read_eq.
  unfold bind, _cache_get, lift, gets. rewrite Hk. simpl. rewrite Hc.
  unfold try_except, bind, list_cursor, round_trip. rewrite Hf.
  unfold _cache_set, bind, lift. rewrite Hk. by simpl.
Qed.

Lemma read_miss_fault w q p so li h e s' :
  hash_key (request_key q p) = Ok h ->
  _read_cache w !! h = None ->
  fetch (request_cursor q p so li) (animals w) = (Raise e, s') ->
  read q p so li true w =
    (Ok [],
     mkState s' (_read_cache w) (stdout w ++ [e])
             (wire w ++ [Fetch (request_cursor q p so li)])).
Proof.
  intros Hk Hc Hf. rewrite read_eq.
  unfold bind, _cache_get, lift, gets. rewrite Hk. simpl. rewrite Hc.
  unfold try_except, bind, list_cursor, round_trip. by rewrite Hf.
Qed.

Lemma read_direct_answer w q p so li docs s' :
  fetch (request_cursor q p so li) (animals w) = (Ok docs, s') ->
  read q p so li false w =
    (Ok docs,
     mkState s' (_read_cache w) (stdout w)
             (wire w ++ [Fetch (request_cursor q p so li)])).
Proof.
  intros Hf. rewrite read_eq.
  unfold bind, ret, try_except, list_cursor, round_trip. by rewrite Hf.
Qed.

Lemma read_direct_fault w q p so li e s' :
  fetch (request_cursor q p so li) (animals w) = (Raise e, s') ->
  read q p so li false w =
    (Ok [],
     mkState s' (_read_cache w) (stdout w ++ [e])
             (wire w ++ [Fetch (request_cursor q p so li)])).
Proof.
  intros Hf. rewrite read_eq.
  unfold bind, ret, try_except, list_cursor, round_trip. by rewrite Hf.
Qed.

End ManagerFacts.

(* ================================================================== *)
(** ** Validation and store faults *)
(* ================================================================== *)

Section Boundary.
Context {S : Type} `{!Collection S}.
Implicit Types (w : State S) (c : call).

Lemma is_mapping_false_guard (v : value) :
  is_mapping v = false ->
  negb (isinstance_dict v) || negb (truthy v) = true.
Proof. unfold is_mapping. by destruct (isinstance_dict v), (truthy v). Qed.

Lemma is_mapping_true_guard (v : value) :
  is_mapping v = true ->
  negb (isinstance_dict v) || negb (truthy v) = false.
Proof. unfold is_mapping. by destruct (isinstance_dict v), (truthy v). Qed.

(** C7. [create], [update] and [delete] raise the validation error
    ([ValueError]) as soon as a required argument is empty or is not a
    mapping, and they do so in the state they were called in: no
    request is sent and the collection is untouched. *)
Theorem invalid_arguments_raise_before_store w c :
  accepted c = false ->
  exists msg, perform c w = (Raise (ValueError msg), w).
Proof.
  destruct c as [d | q p so li uc | q u | q]; simpl; intros Hbad.
  - apply is_mapping_false_guard in Hbad.
    unfold bind, create. rewrite Hbad. by eexists.
  - discriminate.
  - unfold bind, update.
    destruct (is_mapping q) eqn:Hq.
    + simpl in Hbad. apply is_mapping_false_guard in Hbad.
      apply is_mapping_true_guard in Hq. rewrite Hq, Hbad. by eexists.
    + apply is_mapping_false_guard in Hq. rewrite Hq. by eexists.
  - apply is_mapping_false_guard in Hbad.
    unfold bind, delete. rewrite Hbad. by eexists.
Qed.

(** C4. When the collection meets the request of [create], [read],
    [update] or [delete] with a fault, the operation does not raise:
    it returns its neutral result ([False], the empty list, [0]),
    having printed the fault and left the cache as it was. *)
Theorem store_fault_is_swallowed w c e :
  accepted c = true ->
  misses w c = true ->
  fault_of (request_of c) (animals w) = Some e ->
  perform c w =
    (Ok (neutral c),
     mkState (after (request_of c) (animals w)) (_read_cache w)
             (stdout w ++ [e]) (wire w ++ [request_of c])).
Proof.
  destruct c as [d | q p so li uc | q u | q]; simpl; intros Hok Hmiss Hf.
  - apply is_mapping_true_guard in Hok.
    unfold bind, create. rewrite Hok.
    unfold try_except, bind, animals_insert_one, round_trip.
    destruct (insert_one (dict_of d) (animals w)) as [[i | e'] s'];
      simpl in *; [discriminate |]. by inversion Hf.
  - destruct (fetch (request_cursor q p so li) (animals w))
      as [[l | e'] s'] eqn:Hfetch; simpl in Hf; [discriminate |].
    inversion Hf; subst e'. unfold bind.
    destruct uc.
    + destruct (hash_key (request_key q p)) as [h | ?] eqn:Hk;
        [| discriminate].
      destruct (_read_cache w !! h) eqn:Hc; [discriminate |].
      by rewrite (read_miss_fault w q p so li h e s' Hk Hc Hfetch).
    + by rewrite (read_direct_fault w q p so li e s' Hfetch).
  - apply andb_true_iff in Hok as [Hq Hu].
    apply is_mapping_true_guard in Hq, Hu.
    unfold bind, update. rewrite Hq, Hu.
    unfold try_except, bind, animals_update_many, round_trip.
    destruct (update_many (dict_of q) [("$set", u)] (animals w))
      as [[n | e'] s']; simpl in *; [discriminate |]. by inversion Hf.
  - apply is_mapping_true_guard in Hok.
    unfold bind, delete. rewrite Hok.
    unfold try_except, bind, animals_delete_many, round_trip.
    destruct (delete_many (dict_of q) (animals w)) as [[n | e'] s'];
      simpl in *; [discriminate |]. by inversion Hf.
Qed.

End Boundary.

(* ================================================================== *)
(** ** Cache keys *)
(* ================================================================== *)

Lemma hash_items_unhashable (items : list (string * value)) :
  (exists k v, (k, v) ∈ items /\ hashable v = false) ->
  exists msg, hash_items items = Raise (TypeError msg).
Proof.
  induction items as [| [k' v'] rest IH]; intros (k & v & Hin & Hv).
  - by apply elem_of_nil in Hin.
  - destruct v' as [a | l | d]; simpl; try by eexists.
    apply elem_of_cons in Hin as [Heq | Hin].
    + injection Heq as -> ->. discriminate.
    + destruct IH as [msg ->]; [by exists k, v |]. by eexists.
Qed.

Lemma hash_items_hashable (items : list (string * value)) :
  Forall (fun kv => hashable (snd kv) = true) items ->
  exists h, hash_items items = Ok h.
Proof.
  induction 1 as [| [k v] rest Hv _ [h IH]]; simpl; [by eexists |].
  destruct v; try discriminate. rewrite IH. by eexists.
Qed.

Lemma normalize_nonempty (q : pydict) :
  q <> [] -> _normalize_query (Some q) = q.
Proof. destruct q; [congruence | reflexivity]. Qed.

Lemma request_key_unhashable (q : pydict) (p : option pydict) :
  (exists k v, (k, v) ∈ q /\ hashable v = false) ->
  exists msg, hash_key (request_key (Some q) p) = Raise (TypeError msg).
Proof.
  intros (k & v & Hin & Hv). unfold hash_key, request_key, _cache_key.
  assert (q <> []) as Hne by (intros ->; by apply elem_of_nil in Hin).
  rewrite (normalize_nonempty q Hne). cbn [fst snd].
  destruct (hash_items_unhashable (sorted_items q)) as [msg ->]; [| by eexists].
  exists k, v. split; [| done]. by rewrite sorted_items_perm.
Qed.

Lemma request_key_hashable (q : pydict) (p : option pydict) :
  Forall (fun kv => hashable (snd kv) = true) q ->
  exists h, hash_key (request_key (Some q) p) = Ok h.
Proof.
  intros Hq. unfold hash_key, request_key, _cache_key. cbn [fst snd].
  destruct (hash_items_hashable (sorted_items (_normalize_query (Some q))))
    as [h ->]; [| by eexists].
  destruct q as [| kv q']; [by constructor |].
  rewrite normalize_nonempty by done. by rewrite sorted_items_perm.
Qed.

Section CacheKeys.
Context {S : Type} `{!Collection S}.
Implicit Types (w : State S).

(** Without the cache, [read] always reaches the collection and
    always returns. *)
Lemma read_direct_returns w q p so li :
  exists docs w',
    read q p so li false w = (Ok docs, w') /\
    wire w' = (wire w ++ [Fetch (request_cursor q p so li)])%list.
Proof.
  destruct (fetch (request_cursor q p so li) (animals w))
    as [[docs | e] s'] eqn:Hf.
  - rewrite (read_direct_answer w q p so li docs s' Hf). by eexists _, _.
  - rewrite (read_direct_fault w q p so li e s' Hf). by eexists _, _.
Qed.

(** C9. A query holding a list or a dict as a value (any [$in] or
    [$gte]/[$lte] constraint) makes [read] with [use_cache=True] raise
    [TypeError] at the cache lookup, in the state it was called in:
    nothing is sent to the collection and nothing is printed.  With
    [use_cache=False] the same call derives its key without raising,
    reaches the collection and returns. *)
Theorem unhashable_query_raises_at_lookup w (q : pydict) p so li :
  (exists k v, (k, v) ∈ q /\ hashable v = false) ->
  (exists msg,
      read (Some q) p so li true w = (Raise (TypeError msg), w)) /\
  (exists docs w',
      read (Some q) p so li false w = (Ok docs, w') /\
      wire w' =
        (wire w ++ [Fetch (request_cursor (Some q) p so li)])%list).
Proof.
  intros Hbad. split; [| apply read_direct_returns].
  destruct (request_key_unhashable q p Hbad) as [msg Hk].
  exists msg. by apply read_unhashable.
Qed.

End CacheKeys.

(* ================================================================== *)
(** ** Cached reads *)
(* ================================================================== *)

Lemma f_tuple_of_field_list (query : pydict) (p : option pydict) :
  snd (_cache_key query (field_names p)) =
    match field_list p with
    | [] => None
    | fs => Some (sorted_strs fs)
    end.
Proof.
  unfold _cache_key, field_list. cbn [snd].
  by destruct (field_names p) as [[| f fs] |].
Qed.

(** Two requests equal by sorted items and by field set share a key. *)
Lemma request_key_agrees (q1 q2 : pydict) (p1 p2 : option pydict) :
  q1 <> [] -> q2 <> [] ->
  sorted_items q1 = sorted_items q2 ->
  field_list p1 ≡ₚ field_list p2 ->
  request_key (Some q1) p1 = request_key (Some q2) p2.
Proof.
  intros H1 H2 Hq Hf.
  apply injective_projections.
  - unfold request_key, _cache_key. cbn [fst].
    by rewrite !normalize_nonempty.
  - unfold request_key. rewrite !f_tuple_of_field_list.
    destruct (field_list p1) as [| a l1], (field_list p2) as [| b l2];
      try done.
    + by apply Permutation_nil_cons in Hf.
    + symmetry in Hf. by apply Permutation_nil_cons in Hf.
    + f_equal. by apply sorted_strs_of_perm.
Qed.

Section CachedReads.
Context {S : Type} `{!Collection S}.
Implicit Types (w : State S) (c : call).

(** A cached read that misses goes to the collection, whatever the
    collection answers. *)
Lemma read_miss_contacts w q p so li h :
  hash_key (request_key q p) = Ok h ->
  _read_cache w !! h = None ->
  exists docs w',
    read q p so li true w = (Ok docs, w') /\
    wire w' = (wire w ++ [Fetch (request_cursor q p so li)])%list.
Proof.
  intros Hk Hc.
  destruct (fetch (request_cursor q p so li) (animals w))
    as [[docs | e] s'] eqn:Hf.
  - rewrite (read_miss_answer w q p so li h docs s' Hk Hc Hf).
    by eexists _, _.
  - rewrite (read_miss_fault w q p so li h e s' Hk Hc Hf).
    by eexists _, _.
Qed.

(** C2, as amended.  Let [q1] and [q2] be non-empty queries with
    scalar values, equal by sorted items, and let the projections name
    the same fields.  If the collection answers the request of
    [read(q1, fields)] without a fault, then the read with caching
    enabled leaves its result in the cache, and the following
    [read(q2, fields)] with caching enabled returns that same list in
    an unchanged state: no second request is sent. *)
Theorem equal_requests_share_cache_entry w (q1 q2 : pydict) p1 p2 docs s' :
  q1 <> [] -> q2 <> [] ->
  sorted_items q1 = sorted_items q2 ->
  field_list p1 ≡ₚ field_list p2 ->
  Forall (fun kv => hashable (snd kv) = true) q1 ->
  fetch (request_cursor (Some q1) p1 None 0) (animals w) = (Ok docs, s') ->
  exists r w1,
    read (Some q1) p1 None 0 true w = (Ok r, w1) /\
    cached w1 (Some q1) p1 r /\
    read (Some q2) p2 None 0 true w1 = (Ok r, w1).
Proof.
  intros H1 H2 Hq Hp Hh Hf.
  destruct (request_key_hashable q1 p1 Hh) as [h Hk].
  pose proof (request_key_agrees q1 q2 p1 p2 H1 H2 Hq Hp) as Hkey.
  destruct (_read_cache w !! h) as [r |] eqn:Hc.
  - assert (cached w (Some q1) p1 r) as Hcached by (by exists h).
    exists r, w. split_and!; [by apply read_hit | done |].
    apply read_hit. exists h. by rewrite <- Hkey.
  - rewrite (read_miss_answer w (Some q1) p1 None 0 h docs s' Hk Hc Hf).
    eexists _, _. split; [reflexivity |].
    assert (cached
              (mkState s' (<[h:=docs]> (_read_cache w)) (stdout w)
                 (wire w ++ [Fetch (request_cursor (Some q1) p1 None 0)]))
              (Some q1) p1 docs) as Hcached.
    { exists h. split; [done |]. simpl. apply lookup_insert_eq. }
    split; [done |]. apply read_hit.
    destruct Hcached as (h' & Hk' & Hc'). exists h'. by rewrite <- Hkey.
Qed.

(** C10. The key under which [read] caches is made of the query and
    the projected field names only.  Once a read with caching enabled
    has been answered by the collection, a later read of the same
    query and projection with caching enabled returns the list cached
    then, whatever [sort] and [limit] either call was given, and
    sends nothing to the collection. *)
Theorem cache_entry_ignores_sort_and_limit w q p so1 li1 so2 li2 h docs s' :
  hash_key (request_key q p) = Ok h ->
  _read_cache w !! h = None ->
  fetch (request_cursor q p so1 li1) (animals w) = (Ok docs, s') ->
  exists w1,
    read q p so1 li1 true w = (Ok docs, w1) /\
    wire w1 = (wire w ++ [Fetch (request_cursor q p so1 li1)])%list /\
    read q p so2 li2 true w1 = (Ok docs, w1).
Proof.
  intros Hk Hc Hf.
  rewrite (read_miss_answer w q p so1 li1 h docs s' Hk Hc Hf).
  eexists. split_and!; [reflexivity | reflexivity |].
  apply read_hit. exists h. split; [done |]. simpl. apply lookup_insert_eq.
Qed.

(** C3, as amended.  A call of [create], [update] or [delete] whose
    arguments pass validation and whose request the collection answers
    without a fault leaves the read cache empty; the next read with
    caching enabled, for any hashable key, is sent to the collection. *)
Theorem answered_write_flushes_cache w c :
  is_write c = true ->
  accepted c = true ->
  fault_of (request_of c) (animals w) = None ->
  exists a w',
    perform c w = (Ok a, w') /\
    _read_cache w' = ∅ /\
    forall q p so li h,
      hash_key (request_key q p) = Ok h ->
      exists docs w'',
        read q p so li true w' = (Ok docs, w'') /\
        wire w'' = (wire w' ++ [Fetch (request_cursor q p so li)])%list.
Proof.
  intros Hw Hok Hf.
  assert (forall a (w' : State S),
            perform c w = (Ok a, w') -> _read_cache w' = ∅ ->
            exists a w',
              perform c w = (Ok a, w') /\ _read_cache w' = ∅ /\
              forall q p so li h,
                hash_key (request_key q p) = Ok h ->
                exists docs w'',
                  read q p so li true w' = (Ok docs, w'') /\
                  wire w'' =
                    (wire w' ++ [Fetch (request_cursor q p so li)])%list)
    as Hfinish.
  { intros a w' Hp He. exists a, w'. split_and!; [done | done |].
    intros q p so li h Hk. apply (read_miss_contacts w' q p so li h Hk).
    by rewrite He. }
  destruct c as [d | q p so li uc | q u | q]; simpl in *; try discriminate.
  - apply is_mapping_true_guard in Hok.
    destruct (insert_one (dict_of d) (animals w)) as [[i | e] s'] eqn:Hi;
      simpl in Hf; [| discriminate].
    eapply Hfinish;
      [ unfold bind, create; rewrite Hok;
        unfold try_except, bind, animals_insert_one, round_trip; rewrite Hi;
        reflexivity
      | reflexivity ].
  - apply andb_true_iff in Hok as [Hq Hu].
    apply is_mapping_true_guard in Hq, Hu.
    destruct (update_many (dict_of q) [("$set", u)] (animals w))
      as [[n | e] s'] eqn:Hi; simpl in Hf; [| discriminate].
    eapply Hfinish;
      [ unfold bind, update; rewrite Hq, Hu;
        unfold try_except, bind, animals_update_many, round_trip; rewrite Hi;
        reflexivity
      | reflexivity ].
  - apply is_mapping_true_guard in Hok.
    destruct (delete_many (dict_of q) (animals w)) as [[n | e] s'] eqn:Hi;
      simpl in Hf; [| discriminate].
    eapply Hfinish;
      [ unfold bind, delete; rewrite Hok;
        unfold try_except, bind, animals_delete_many, round_trip; rewrite Hi;
        reflexivity
      | reflexivity ].
Qed.

End CachedReads.

(* ================================================================== *)
(** ** The manager on the small shelter *)
(* ================================================================== *)

Section OnTheShelter.
Import MemStore Sample.

Lemma invalid_arguments_raise_before_store_at_empty_dict :
  accepted (Create (VDict [])) = false /\
  exists msg,
    perform (Create (VDict [])) fresh = (Raise (ValueError msg), fresh).
Proof.
  split; [reflexivity |].
  apply (invalid_arguments_raise_before_store fresh (Create (VDict []))).
  reflexivity.
Defined.

Lemma store_fault_is_swallowed_when_unplugged :
  perform (Read (Some dogs) None None 0 true) unplugged =
    (Ok (Docs []),
     mkState (mkStore [rex; bo; tom] 4 false) ∅
             [PyMongoError "ServerSelectionTimeoutError"]
             [Fetch (find dogs None)]).
Proof.
  exact (store_fault_is_swallowed unplugged
           (Read (Some dogs) None None 0 true)
           (PyMongoError "ServerSelectionTimeoutError")
           eq_refl eq_refl eq_refl).
Defined.

Lemma unhashable_query_raises_at_lookup_for_in :
  (exists msg,
      read (Some [("breed", VDict [("$in", VList [Atom (SStr "Poodle")])])])
           None None 0 true fresh = (Raise (TypeError msg), fresh)) /\
  (exists docs w',
      read (Some [("breed", VDict [("$in", VList [Atom (SStr "Poodle")])])])
           None None 0 false fresh = (Ok docs, w') /\
      wire w' =
        (wire fresh ++
         [Fetch (request_cursor
            (Some [("breed", VDict [("$in", VList [Atom (SStr "Poodle")])])])
            None None 0)])%list).
Proof.
  apply (unhashable_query_raises_at_lookup fresh
           [("breed", VDict [("$in", VList [Atom (SStr "Poodle")])])]).
  eexists _, _. split; [apply list_elem_of_here | reflexivity].
Defined.

Lemma equal_requests_share_cache_entry_on_shelter :
  exists r w1,
    read (Some female_dogs) name_breed None 0 true fresh = (Ok r, w1) /\
    cached w1 (Some female_dogs) name_breed r /\
    read (Some dogs_female) breed_name_id None 0 true w1 = (Ok r, w1).
Proof.
  eapply (equal_requests_share_cache_entry fresh female_dogs dogs_female
            name_breed breed_name_id).
  - discriminate.
  - discriminate.
  - vm_compute. reflexivity.
  - apply perm_swap.
  - repeat constructor.
  - vm_compute. reflexivity.
Defined.

Lemma cache_entry_ignores_sort_and_limit_on_shelter :
  exists w1,
    read (Some dogs) None None 0 true fresh = (Ok [rex; bo], w1) /\
    wire w1 = [Fetch (find dogs None)] /\
    read (Some dogs) None oldest_first 1 true w1 = (Ok [rex; bo], w1).
Proof.
  apply (cache_entry_ignores_sort_and_limit fresh (Some dogs) None
           None 0 oldest_first 1 dogs_key [rex; bo]
           (mkStore [rex; bo; tom] 4 true));
    vm_compute; reflexivity.
Defined.

Lemma answered_write_flushes_cache_on_shelter :
  exists a w',
    perform (Delete (VDict dogs))
      (mkState (mkStore [rex; bo; tom] 4 true)
               (<[dogs_key := [rex; bo]]> ∅) [] []) = (Ok a, w') /\
    _read_cache w' = ∅ /\
    forall q p so li h,
      hash_key (request_key q p) = Ok h ->
      exists docs w'',
        read q p so li true w' = (Ok docs, w'') /\
        wire w'' = (wire w' ++ [Fetch (request_cursor q p so li)])%list.
Proof.
  apply (answered_write_flushes_cache
           (mkState (mkStore [rex; bo; tom] 4 true)
                    (<[dogs_key := [rex; bo]]> ∅) [] [])
           (Delete (VDict dogs)));
    reflexivity.
Defined.

(** What a sort and a limit would have selected, had the sorted and
    limited read of the dogs reached the collection. *)
Example oldest_dog_uncached :
  fst (read (Some dogs) None oldest_first 1 false fresh) = Ok [rex].
Proof. reflexivity. Qed.

(** The request of C2 when the collection faults: nothing is cached
    and the second read is sent as well. *)
Lemma faulting_read_is_not_cached :
  ~ (forall (w : State store) (q1 q2 : pydict) (p1 p2 : option pydict),
       q1 <> [] -> q2 <> [] ->
       sorted_items q1 = sorted_items q2 ->
       field_list p1 ≡ₚ field_list p2 ->
       exists r w1,
         read (Some q1) p1 None 0 true w = (Ok r, w1) /\
         cached w1 (Some q1) p1 r /\
         read (Some q2) p2 None 0 true w1 = (Ok r, w1)).
Proof.
  intros Hclaim.
  destruct (Hclaim unplugged dogs dogs None None) as (r & w1 & Hr & Hc & _);
    try done.
  vm_compute in Hr. injection Hr as <- <-.
  destruct Hc as (h & Hk & Hc). vm_compute in Hk. injection Hk as <-.
  vm_compute in Hc. discriminate.
Qed.

(** A write the collection meets with a fault leaves the cache as it
    was, and the next read is answered from it. *)
Lemma faulting_write_keeps_cache :
  ~ (forall (w : State store) (c : call),
       is_write c = true ->
       forall q p so li docs,
         cached w q p docs ->
         wire (snd (read q p so li true (snd (perform c w)))) =
           (wire (snd (perform c w)) ++
            [Fetch (request_cursor q p so li)])%list).
Proof.
  intros Hclaim.
  specialize (Hclaim unplugged_warm
                (Create (VDict [("name", Atom (SStr "Ada"))])) eq_refl
                (Some dogs) None None 0 [rex; bo]).
  assert (cached unplugged_warm (Some dogs) None [rex; bo]) as Hc.
  { exists dogs_key. split; reflexivity. }
  specialize (Hclaim Hc). vm_compute in Hclaim. discriminate.
Qed.

End OnTheShelter.

(* ================================================================== *)
(** ** The filter evaluator *)
(* ================================================================== *)

(** C6. [spec_to_mongo_query] fails exactly on the names that are not
    registered, with the lookup failure [KeyError] on that name (the
    unknown-filter error of the specification).  On a registered name it
    returns the query with animal type ["Dog"], breed membership over
    the rule's breeds as a sorted sequence without repetition, equality
    on the rule's sex, and the inclusive [$gte]/[$lte] range of the
    rule's ages. *)
Theorem spec_to_mongo_query_meets_rule (name : string) :
  match FILTER_SPECS !! name with
  | None => spec_to_mongo_query name = Raise (KeyError name)
  | Some spec =>
      exists bs,
        spec_to_mongo_query name = Ok (rule_query spec bs) /\
        Sorted str_le bs /\
        NoDup bs /\
        (forall b, b ∈ bs <-> b ∈ breeds spec)
  end.
Proof.
  unfold spec_to_mongo_query, lookup_spec.
  destruct (FILTER_SPECS !! name) as [spec |]; [| done].
  exists (sorted_strs (elements (breeds spec))). split_and!.
  - reflexivity.
  - apply sorted_strs_sorted.
  - rewrite sorted_strs_perm. apply NoDup_elements.
  - intros b. rewrite sorted_strs_perm. apply elem_of_elements.
Qed.

Lemma registered_names :
  dom FILTER_SPECS = ({[ "WATER"; "MOUNTAIN"; "DISASTER" ]} : gset string).
Proof. unfold FILTER_SPECS. rewrite !dom_insert_L, dom_empty_L. set_solver. Qed.

Example water_query :
  spec_to_mongo_query "WATER" =
    Ok [ ("animal_type", Atom (SStr "Dog"));
         ("breed",
          VDict [("$in", VList [ Atom (SStr "Chesapeake Bay Retriever");
                                 Atom (SStr "Labrador Retriever Mix");
                                 Atom (SStr "Newfoundland") ])]);
         ("sex_upon_outcome", Atom (SStr "Intact Female"));
         ("age_upon_outcome_in_weeks",
          VDict [("$gte", Atom (SInt 26)); ("$lte", Atom (SInt 156))]) ].
Proof. vm_compute. reflexivity. Qed.

Example mountain_query :
  spec_to_mongo_query "MOUNTAIN" =
    Ok [ ("animal_type", Atom (SStr "Dog"));
         ("breed",
          VDict [("$in", VList [ Atom (SStr "Alaskan Malamute");
                                 Atom (SStr "German Shepherd");
                                 Atom (SStr "Old English Sheepdog");
                                 Atom (SStr "Rottweiler");
                                 Atom (SStr "Siberian Husky") ])]);
         ("sex_upon_outcome", Atom (SStr "Intact Male"));
         ("age_upon_outcome_in_weeks",
          VDict [("$gte", Atom (SInt 26)); ("$lte", Atom (SInt 156))]) ].
Proof. vm_compute. reflexivity. Qed.

Example disaster_query :
  spec_to_mongo_query "DISASTER" =
    Ok [ ("animal_type", Atom (SStr "Dog"));
         ("breed",
          VDict [("$in", VList [ Atom (SStr "Bloodhound");
                                 Atom (SStr "Doberman Pinscher");
                                 Atom (SStr "German Shepherd");
                                 Atom (SStr "Golden Retriever");
                                 Atom (SStr "Rottweiler") ])]);
         ("sex_upon_outcome", Atom (SStr "Intact Male"));
         ("age_upon_outcome_in_weeks",
          VDict [("$gte", Atom (SInt 20)); ("$lte", Atom (SInt 300))]) ].
Proof. vm_compute. reflexivity. Qed.

Example unknown_filter : spec_to_mongo_query "RESET" = Raise (KeyError "RESET").
Proof. vm_compute. reflexivity. Qed.

(** *** The mask in memory *)

Lemma compare_series_numeric op sym (xs : list cell) (bound : Z) :
  Forall (fun c => numeric_or_missing c = true) xs ->
  compare_series op sym xs bound =
    Ok (map (fun c => match c with
                      | Val (SInt z) => op z bound
                      | _ => false
                      end) xs).
Proof.
  induction 1 as [| c xs Hc _ IH]; [done |].
  simpl. rewrite IH. by destruct c as [| [| z | s]].
Qed.

Lemma mask_and_map {A} (f g : A -> bool) (l : list A) :
  mask_and (map f l) (map g l) = map (fun x => f x && g x) l.
Proof. induction l as [| x l IH]; [done |]. simpl. by rewrite IH. Qed.

Lemma keep_map {A} (f : A -> bool) (l : list A) :
  keep (map f l) l = List.filter f l.
Proof.
  induction l as [| x l IH]; [done |]. simpl. rewrite IH. by destruct (f x).
Qed.

(** With comparable ages the two comparisons return, and the rows the
    mask keeps are the rows that satisfy the rule. *)
Lemma rule_mask_keeps (df : DataFrame) (spec : FilterSpec) :
  Forall (fun c => numeric_or_missing c = true)
         (series df "age_upon_outcome_in_weeks") ->
  exists m_min m_max,
    ge (series df "age_upon_outcome_in_weeks") (age_min spec) = Ok m_min /\
    le (series df "age_upon_outcome_in_weeks") (age_max spec) = Ok m_max /\
    keep (mask_and
            (mask_and
               (mask_and (isin (series df "breed") (breeds spec))
                         (eq_str (series df "sex_upon_outcome") (sex spec)))
               m_min) m_max) (rows df) =
      List.filter (satisfies spec (columns df)) (rows df).
Proof.
  intros Hnum. unfold ge, le. rewrite !(compare_series_numeric _ _ _ _ Hnum).
  eexists _, _. split_and!; [reflexivity | reflexivity |].
  unfold isin, eq_str, series.
  rewrite !map_map, !mask_and_map, keep_map.
  apply filter_ext. intros r. unfold satisfies.
  unfold breed_allowed, sex_required, age_in_range.
  destruct (at_label (columns df) "breed" r) as [| [| z | b]];
    destruct (at_label (columns df) "sex_upon_outcome" r) as [| [| z' | x]];
    destruct (at_label (columns df) "age_upon_outcome_in_weeks" r)
      as [| [| a | t]];
    rewrite ?andb_false_r, ?andb_false_l, ?andb_true_r; try reflexivity.
  by rewrite Z.geb_leb, <- andb_assoc.
Qed.

(** C5, as amended.  For every registered rule and every frame whose
    age-in-weeks cells are numbers or missing, [apply_spec_filter]
    returns the rows whose breed is in the rule's set, whose sex equals
    the rule's value and whose age lies in the inclusive range, in their
    original order and under the same labels; a row missing one of the
    three cells fails its test and is left out; a frame lacking one of
    the three labels yields no rows. *)
Theorem apply_spec_filter_selects (df : DataFrame) (name : string)
    (spec : FilterSpec) :
  FILTER_SPECS !! name = Some spec ->
  Forall (fun c => numeric_or_missing c = true)
         (series df "age_upon_outcome_in_weeks") ->
  apply_spec_filter df name =
    Ok (mkFrame (columns df)
          (if forallb (has_column df)
                ["breed"; "sex_upon_outcome"; "age_upon_outcome_in_weeks"]
           then List.filter (satisfies spec (columns df)) (rows df)
           else [])).
Proof.
  intros Hreg Hnum. unfold apply_spec_filter, lookup_spec. rewrite Hreg.
  destruct (forallb _ _); [| done]. cbn [negb].
  destruct (rule_mask_keeps df spec Hnum) as (m_min & m_max & -> & -> & Hk).
  unfold loc. by rewrite Hk.
Qed.

(** A missing cell under any of the three labels keeps a row out. *)
Lemma satisfies_needs_all_three (spec : FilterSpec) cols (r : list cell) :
  satisfies spec cols r = true ->
  at_label cols "breed" r <> NaN /\
  at_label cols "sex_upon_outcome" r <> NaN /\
  at_label cols "age_upon_outcome_in_weeks" r <> NaN.
Proof.
  unfold satisfies. intros [[Hb Hs]%andb_true_iff Ha]%andb_true_iff.
  split_and!; intros Heq;
    [rewrite Heq in Hb | rewrite Heq in Hs | rewrite Heq in Ha]; done.
Qed.

(* ================================================================== *)
(** ** Frames: labels, rows and cells *)
(* ================================================================== *)

Lemma frame_eta (df : DataFrame) : mkFrame (columns df) (rows df) = df.
Proof. by destruct df. Qed.

Lemma at_label_nil_row (cols : list string) (c : string) :
  at_label cols c [] = NaN.
Proof. unfold at_label. by destruct (position c cols) as [[| i] |]. Qed.

Lemma at_label_cons (c' : string) cols (c : string) (x : cell) r :
  at_label (c' :: cols) c (x :: r) =
    if String.eqb c c' then x else at_label cols c r.
Proof.
  unfold at_label. simpl. destruct (String.eqb c c'); [done |].
  by destruct (position c cols).
Qed.

Lemma at_label_absent cols (c : string) r :
  position c cols = None -> at_label cols c r = NaN.
Proof. unfold at_label. by intros ->. Qed.

Lemma on_column_cons (c' : string) cols col f (x : cell) r :
  on_column (c' :: cols) col f (x :: r) =
    if String.eqb col c' then f x :: r else x :: on_column cols col f r.
Proof.
  unfold on_column. rewrite at_label_cons. simpl.
  destruct (String.eqb col c'); [done |].
  by destruct (position col cols).
Qed.

Lemma on_column_nil_row cols col f : on_column cols col f [] = [].
Proof. unfold on_column. by destruct (position col cols) as [[| i] |]. Qed.

Lemma on_column_length cols col f r :
  length (on_column cols col f r) = length r.
Proof.
  revert r. induction cols as [| c' cols IH]; intros r.
  - done.
  - destruct r as [| x r]; [by rewrite on_column_nil_row |].
    rewrite on_column_cons. destruct (String.eqb col c'); simpl; [done |].
    by rewrite IH.
Qed.

(** The cell under [c] after [f] was applied under [col]. *)
Lemma at_label_on_column cols (c col : string) f r :
  length r = length cols ->
  position c cols <> None ->
  at_label cols c (on_column cols col f r) =
    if String.eqb c col then f (at_label cols c r) else at_label cols c r.
Proof.
  revert r. induction cols as [| c' cols IH]; intros r Hlen Hc; [done |].
  destruct r as [| x r]; [done |]. simpl in Hlen.
  rewrite on_column_cons, (at_label_cons c' cols c x r).
  destruct (String.eqb col c') eqn:Hcol.
  - apply String.eqb_eq in Hcol as ->. rewrite at_label_cons.
    by destruct (String.eqb c c').
  - rewrite at_label_cons.
    destruct (String.eqb c c') eqn:Hcc.
    + apply String.eqb_eq in Hcc as ->.
      by rewrite String.eqb_sym, Hcol.
    + apply IH; [lia |]. simpl in Hc. rewrite Hcc in Hc.
      by destruct (position c cols).
Qed.

Lemma remove_nth_length {A B} (k : nat) (l1 : list A) (l2 : list B) :
  length l1 = length l2 ->
  length (remove_nth k l1) = length (remove_nth k l2).
Proof.
  revert k l2. induction l1 as [| a l1 IH]; intros [| k] [| b l2] Hlen;
    simpl in *; try done; try lia.
  f_equal. apply IH. lia.
Qed.

(** Dropping the column under [d] leaves the cells under other labels. *)
Lemma at_label_remove cols (c d : string) (k : nat) r :
  c <> d ->
  position d cols = Some k ->
  at_label (remove_nth k cols) c (remove_nth k r) = at_label cols c r.
Proof.
  intros Hne. revert k r.
  induction cols as [| c' cols IH]; intros k r Hpos; [done |].
  simpl in Hpos. destruct (String.eqb d c') eqn:Hd.
  - apply String.eqb_eq in Hd as <-. injection Hpos as <-.
    destruct r as [| x r]; simpl.
    + by rewrite !at_label_nil_row.
    + rewrite at_label_cons.
      by rewrite (proj2 (String.eqb_neq c d) Hne).
  - destruct (position d cols) as [k' |] eqn:Hk; [| done].
    injection Hpos as <-.
    destruct r as [| x r]; simpl.
    + by rewrite !at_label_nil_row.
    + rewrite !at_label_cons. destruct (String.eqb c c'); [done |].
      by apply IH.
Qed.

Lemma position_remove cols (c d : string) (k : nat) :
  c <> d ->
  position d cols = Some k ->
  position c (remove_nth k cols) = None <-> position c cols = None.
Proof.
  intros Hne. revert k.
  induction cols as [| c' cols IH]; intros k Hpos; [done |].
  simpl in Hpos. destruct (String.eqb d c') eqn:Hd.
  - apply String.eqb_eq in Hd as <-. injection Hpos as <-. simpl.
    by rewrite (proj2 (String.eqb_neq c d) Hne); destruct (position c cols).
  - destruct (position d cols) as [k' |] eqn:Hk; [| done].
    injection Hpos as <-. simpl. destruct (String.eqb c c'); [done |].
    specialize (IH k' eq_refl).
    destruct (position c (remove_nth k' cols)), (position c cols);
      try done; by destruct IH as [H1 H2]; (specialize (H1 eq_refl) ||
                                            specialize (H2 eq_refl)).
Qed.

Lemma assign_rows_map (i : nat) (g : list cell -> cell) rs :
  assign_rows i rs (map g rs) = map (fun r => set_nth i (g r) r) rs.
Proof. induction rs as [| r rs IH]; [done |]. simpl. by rewrite IH. Qed.

(** Assigning [f] of a column to that column works row by row. *)
Lemma assign_series (df : DataFrame) (col : string) (f : cell -> cell) :
  (if has_column df col then assign df col (map f (series df col)) else df) =
    mkFrame (columns df) (map (on_column (columns df) col f) (rows df)).
Proof.
  unfold has_column, assign, series, on_column.
  destruct (position col (columns df)) as [i |] eqn:Hpos.
  - f_equal. rewrite map_map. apply assign_rows_map.
  - rewrite map_id. by rewrite frame_eta.
Qed.

Lemma assign_series_fold (df : DataFrame) (f : cell -> cell) cs :
  fold_left
    (fun df col =>
       if has_column df col then assign df col (map f (series df col))
       else df) cs df =
    mkFrame (columns df)
      (map (fun r => fold_left (fun r col => on_column (columns df) col f r)
                       cs r) (rows df)).
Proof.
  revert df. induction cs as [| col cs IH]; intros df.
  - simpl. rewrite map_id. by rewrite frame_eta.
  - cbn [fold_left]. rewrite assign_series, IH. simpl. by rewrite map_map.
Qed.

Lemma fold_left_agree {A B} (f g : A -> B -> A) (l : list B) (a : A) :
  (forall a x, f a x = g a x) -> fold_left f l a = fold_left g l a.
Proof.
  intros Hfg. revert a. induction l as [| x l IH]; intros a; [done |].
  simpl. by rewrite Hfg, IH.
Qed.

Section CleaningFacts.
Context {RT : Runtime}.

(** The identifier column, stringified and dropped. *)
Lemma drop_id_by_rows (df : DataFrame) :
  (if has_column df "_id"
   then drop (assign df "_id" (map astype_str (series df "_id"))) "_id"
   else df) =
    mkFrame (clean_columns (columns df))
      (map (fun r => match position "_id" (columns df) with
                     | Some k =>
                         remove_nth k
                           (on_column (columns df) "_id" astype_str r)
                     | None => r
                     end) (rows df)).
Proof.
  pose proof (assign_series df "_id" astype_str) as Ha.
  unfold clean_columns. unfold has_column in *.
  destruct (position "_id" (columns df)) as [k |] eqn:Hid.
  - rewrite Ha. unfold drop. simpl. rewrite Hid. by rewrite map_map.
  - rewrite map_id. by rewrite frame_eta.
Qed.

(** [_clean_df] on a frame that is not empty, row by row. *)
Lemma _clean_df_by_rows (df : DataFrame) :
  empty df = false ->
  _clean_df df =
    mkFrame (clean_columns (columns df))
            (map (clean_row (columns df)) (rows df)).
Proof.
  intros Hne. unfold _clean_df. rewrite Hne.
  rewrite drop_id_by_rows.
  rewrite (fold_left_agree
             (fun df col =>
                if has_column df col
                then assign df col
                       (map str_strip (map astype_str (series df col)))
                else df)
             (fun df col =>
                if has_column df col
                then assign df col (map as_text (series df col))
                else df))
    by (intros d col; by rewrite map_map).
  rewrite !assign_series_fold. simpl. by rewrite !map_map.
Qed.

End CleaningFacts.

(* ================================================================== *)
(** ** The cleaned table *)
(* ================================================================== *)

Lemma fold_on_column_length cols (f : cell -> cell) cs r :
  length (fold_left (fun r col => on_column cols col f r) cs r) = length r.
Proof.
  revert r. induction cs as [| col cs IH]; intros r; [done |].
  simpl. by rewrite IH, on_column_length.
Qed.

Lemma at_label_fold_on_column cols (c : string) (f : cell -> cell) cs r :
  length r = length cols ->
  position c cols <> None ->
  at_label cols c (fold_left (fun r col => on_column cols col f r) cs r) =
    fold_left (fun x col => if String.eqb c col then f x else x) cs
      (at_label cols c r).
Proof.
  intros Hlen Hc. revert r Hlen.
  induction cs as [| col cs IH]; intros r Hlen; [done |].
  simpl. rewrite IH by (by rewrite on_column_length).
  by rewrite at_label_on_column.
Qed.

Lemma from_records_aligned (docs : list record) :
  Forall (fun r => length r = length (columns (from_records docs)))
         (rows (from_records docs)).
Proof.
  unfold from_records. simpl. apply Forall_map, Forall_forall.
  intros d _. unfold row_of. by rewrite length_map.
Qed.

Section CleanedTable.
Context {RT : Runtime}.

Lemma clean_row_length cols r :
  length r = length cols ->
  length (clean_row cols r) = length (clean_columns cols).
Proof.
  intros Hlen. unfold clean_row, clean_columns.
  rewrite !fold_on_column_length.
  destruct (position "_id" cols) as [k |]; [| done].
  apply remove_nth_length. by rewrite on_column_length.
Qed.

(** A cell of the cleaned row is the cleaned cell of the row. *)
Lemma clean_row_cell cols (c : string) r :
  c <> "_id" ->
  length r = length cols ->
  position c cols <> None ->
  at_label (clean_columns cols) c (clean_row cols r) =
    clean_cell c (at_label cols c r).
Proof.
  intros Hid Hlen Hc. unfold clean_row, clean_cell.
  assert (position c (clean_columns cols) <> None) as Hc1.
  { unfold clean_columns.
    destruct (position "_id" cols) as [k |] eqn:Hk; [| done].
    by rewrite (position_remove cols c "_id" k Hid Hk). }
  set (r1 := match position "_id" cols with
             | Some k => remove_nth k (on_column cols "_id" astype_str r)
             | None => r
             end).
  assert (length r1 = length (clean_columns cols)) as Hlen1.
  { unfold r1, clean_columns.
    destruct (position "_id" cols) as [k |]; [| done].
    apply remove_nth_length. by rewrite on_column_length. }
  assert (at_label (clean_columns cols) c r1 = at_label cols c r) as Hcell.
  { unfold r1, clean_columns.
    destruct (position "_id" cols) as [k |] eqn:Hk; [| done].
    rewrite (at_label_remove cols c "_id" k _ Hid Hk).
    rewrite at_label_on_column by done.
    by rewrite (proj2 (String.eqb_neq c "_id") Hid). }
  rewrite at_label_fold_on_column;
    [| by rewrite fold_on_column_length | done].
  rewrite at_label_fold_on_column by done.
  by rewrite Hcell.
Qed.

Lemma clean_columns_absent cols (c : string) :
  c <> "_id" ->
  position c cols = None ->
  position c (clean_columns cols) = None.
Proof.
  intros Hid Hc. unfold clean_columns.
  destruct (position "_id" cols) as [k |] eqn:Hk; [| done].
  by apply (position_remove cols c "_id" k Hid Hk).
Qed.

(** Column by column: the cleaned column is the column, cleaned. *)
Lemma series_clean (df : DataFrame) (c : string) :
  Forall (fun r => length r = length (columns df)) (rows df) ->
  c <> "_id" ->
  position c (columns df) <> None \/ clean_cell c NaN = NaN ->
  series (_clean_df df) c = map (clean_cell c) (series df c).
Proof.
  intros Hal Hid Hc.
  destruct (position c (columns df)) as [i |] eqn:Hpos.
  - destruct (empty df) eqn:He.
    + unfold empty in He. destruct df as [cols rs]. simpl in *.
      destruct rs as [| r rs].
      * unfold _clean_df. simpl. done.
      * destruct cols; [done | discriminate].
    + rewrite (_clean_df_by_rows df He). unfold series. simpl.
      rewrite !map_map. apply map_ext_in. intros r Hr.
      apply clean_row_cell; [done | | by rewrite Hpos].
      by apply (proj1 (List.Forall_forall _ _) Hal).
  - destruct Hc as [Hc | Hnan]; [done |].
    assert (series df c = map (fun _ => NaN) (rows df)) as Hs.
    { unfold series. apply map_ext. intros r. by apply at_label_absent. }
    assert (series (_clean_df df) c = map (fun _ => NaN) (rows df)) as Hs'.
    { destruct (empty df) eqn:He.
      - unfold _clean_df. by rewrite He.
      - rewrite (_clean_df_by_rows df He). unfold series. simpl.
        rewrite map_map. apply map_ext. intros r.
        by apply at_label_absent, clean_columns_absent. }
    rewrite Hs', Hs, map_map. apply map_ext. by intros _.
Qed.


End CleanedTable.

Section ReadTable.
Context {S : Type} `{!Collection S} {RT : Runtime}.
Implicit Types (w : State S).

Lemma clean_cell_numeric (c : string) (x : cell) :
  c ∈ numeric_fields -> clean_cell c x = to_numeric_coerce x.
Proof.
  unfold numeric_fields. intros Hc.
  repeat (apply elem_of_cons in Hc as [-> | Hc]); try reflexivity.
  by apply elem_of_nil in Hc.
Qed.


End ReadTable.

(* ================================================================== *)
(** ** The filter evaluator and the table on the small shelter *)
(* ================================================================== *)

Section FiltersOnTheShelter.
Import MemStore Sample.

Lemma water_registered : FILTER_SPECS !! "WATER" = Some water.
Proof. vm_compute. reflexivity. Qed.

Lemma shelter_ages_numeric :
  Forall (fun c => numeric_or_missing c = true)
         (series (from_records [rex; bo; tom]) "age_upon_outcome_in_weeks").
Proof. repeat constructor. Qed.

Lemma apply_spec_filter_selects_on_shelter :
  apply_spec_filter (from_records [rex; bo; tom]) "WATER" =
    Ok (from_records [rex; tom]).
Proof.
  exact (apply_spec_filter_selects (from_records [rex; bo; tom]) "WATER"
           water water_registered shelter_ages_numeric).
Defined.

(** An age entered as text: the comparison with the bound raises. *)
Lemma text_age_makes_filter_raise :
  ~ (forall (df : DataFrame) (name : string) (spec : FilterSpec),
       FILTER_SPECS !! name = Some spec ->
       apply_spec_filter df name =
         Ok (mkFrame (columns df)
               (if forallb (has_column df)
                     ["breed"; "sex_upon_outcome";
                      "age_upon_outcome_in_weeks"]
                then List.filter (satisfies spec (columns df)) (rows df)
                else []))).
Proof.
  intros Hclaim.
  specialize (Hclaim (from_records [rex; ivy]) "WATER" water
                water_registered).
  vm_compute in Hclaim. discriminate.
Qed.

Example text_age_raises_type_error :
  apply_spec_filter (from_records [rex; ivy]) "WATER" =
    Raise (TypeError
             "'>=' not supported between instances of 'str' and 'int'").
Proof. vm_compute. reflexivity. Qed.

(** The table of the kennel: Ivy's age is missing, the other rows are
    as stored, names trimmed. *)
Example kennel_table :
  fst (read_df (RT := runtime) None
         (Some ["name"; "age_upon_outcome_in_weeks"]) true kennel) =
    Ok (mkFrame ["name"; "age_upon_outcome_in_weeks"]
          [ [Val (SStr "Rex"); Val (SInt 100)];
            [Val (SStr "Ivy"); NaN];
            [Val (SStr "Bo"); Val (SInt 40)] ]).
Proof. vm_compute. reflexivity. Qed.

(** The two renderings of a rule disagree on records that are not
    dogs.  The query asks for animal type ["Dog"]; the mask in memory
    does not look at the animal type.  On a cat that meets the breed,
    sex and age of the water rule the query selects nothing and the
    mask keeps the row; on the two records of the specification's
    example, which carry no animal type, the query selects nothing and
    the mask keeps the first. *)
Example mask_keeps_what_query_rejects :
  exists q,
    spec_to_mongo_query "WATER" = Ok q /\
    select q [tom] = Some [] /\
    apply_spec_filter (from_records [tom]) "WATER"
      = Ok (from_records [tom]) /\
    select q [spec_newfoundland; spec_poodle] = Some [] /\
    apply_spec_filter (from_records [spec_newfoundland; spec_poodle]) "WATER"
      = Ok (from_records [spec_newfoundland]).
Proof.
  eexists. split; [apply water_query |].
  split_and!; vm_compute; reflexivity.
Qed.

(** The query path as the dashboard would take it: the rule's query
    holds a dict, so the cached read behind [read_df] raises before
    it reaches the collection. *)
Example query_path_raises_with_cache :
  exists q,
    spec_to_mongo_query "WATER" = Ok q /\
    read_df (RT := runtime) (Some q) (Some REQUIRED_FIELDS) false fresh
      = (Raise (TypeError "unhashable type: 'dict'"), fresh).
Proof.
  eexists. split; [apply water_query |]. vm_compute. reflexivity.
Qed.

End FiltersOnTheShelter.

(* ================================================================== *)
(** ** The two renderings of a rule *)
(* ================================================================== *)

Lemma position_In (c : string) (cols : list string) :
  position c cols <> None <-> In c cols.
Proof.
  induction cols as [| c' cols IH]; simpl; [tauto |].
  destruct (String.eqb c c') eqn:Hc.
  - apply String.eqb_eq in Hc as ->. split; [by left | done].
  - apply String.eqb_neq in Hc.
    destruct (position c cols); split; intros H; try done.
    + right. by apply IH.
    + destruct H as [-> | H]; [done |]. by apply IH in H.
Qed.

Lemma at_label_map (f : string -> cell) (c : string) (cols : list string) :
  at_label cols c (map f cols) =
    match position c cols with
    | Some _ => f c
    | None => NaN
    end.
Proof.
  induction cols as [| c' cols IH]; [done |].
  cbn [map]. rewrite at_label_cons. simpl.
  destruct (String.eqb c c') eqn:Hc.
  - by apply String.eqb_eq in Hc as ->.
  - rewrite IH. by destruct (position c cols).
Qed.

Lemma add_labels_old (ks cols : list string) (c : string) :
  In c cols -> In c (add_labels ks cols).
Proof.
  revert cols. induction ks as [| k ks IH]; intros cols Hc; [done |].
  simpl. apply IH. destruct (existsb (String.eqb k) cols); [done |].
  apply in_or_app. by left.
Qed.

Lemma add_labels_new (ks cols : list string) (c : string) :
  In c ks -> In c (add_labels ks cols).
Proof.
  revert cols. induction ks as [| k ks IH]; intros cols Hc; [done |].
  simpl. destruct Hc as [-> | Hc]; [| by apply IH].
  apply add_labels_old.
  destruct (existsb (String.eqb c) cols) eqn:He.
  - apply existsb_exists in He as (x & Hx & Heq).
    by apply String.eqb_eq in Heq as ->.
  - apply in_or_app. right. by left.
Qed.

Lemma labels_fold_old (docs : list record) (cols : list string) (c : string) :
  In c cols ->
  In c (fold_left (fun cols d => add_labels (map fst d) cols) docs cols).
Proof.
  revert cols. induction docs as [| d docs IH]; intros cols Hc; [done |].
  simpl. by apply IH, add_labels_old.
Qed.

(** Every key of every record is a label of the table. *)
Lemma labels_of_complete (docs : list record) (d : record) (c : string) :
  In d docs -> In c (map fst d) -> In c (labels_of docs).
Proof.
  unfold labels_of. generalize (@nil string) as cols.
  induction docs as [| d' docs IH]; intros cols Hd Hc; [done |].
  simpl. destruct Hd as [-> | Hd].
  - by apply labels_fold_old, add_labels_new.
  - by apply IH.
Qed.

Lemma assoc_Some_key {A} (c : string) (d : list (string * A)) (a : A) :
  assoc c d = Some a -> In c (map fst d).
Proof.
  induction d as [| [k v] d IH]; [done |]. simpl.
  destruct (String.eqb c k) eqn:Hc.
  - apply String.eqb_eq in Hc as ->. by left.
  - intros H. right. by apply IH.
Qed.

(** The cell of a record's row under a label is the record's value. *)
Lemma cell_in_table (docs : list record) (d : record) (c : string) :
  In d docs ->
  at_label (labels_of docs) c (row_of (labels_of docs) d) =
    cell_of (assoc c d).
Proof.
  intros Hd. unfold row_of.
  rewrite (at_label_map (fun c => cell_of (assoc c d))).
  destruct (position c (labels_of docs)) eqn:Hp; [done |].
  destruct (assoc c d) as [a |] eqn:Ha; [| done].
  exfalso. apply assoc_Some_key in Ha.
  pose proof (labels_of_complete docs d c Hd Ha) as Hin.
  apply position_In in Hin. by rewrite Hp in Hin.
Qed.

Lemma satisfies_row_of (spec : FilterSpec) (docs : list record) (d : record) :
  In d docs ->
  satisfies spec (labels_of docs) (row_of (labels_of docs) d) = wanted spec d.
Proof.
  intros Hd. unfold satisfies, wanted. by rewrite !cell_in_table.
Qed.

Lemma filter_map_swap {A B} (f : A -> B) (P : B -> bool) (l : list A) :
  List.filter P (map f l) = map f (List.filter (fun x => P (f x)) l).
Proof.
  induction l as [| x l IH]; [done |]. simpl.
  destruct (P (f x)); simpl; by rewrite IH.
Qed.

Lemma filter_agree {A} (P Q : A -> bool) (l : list A) :
  (forall x, In x l -> P x = Q x) -> List.filter P l = List.filter Q l.
Proof.
  induction l as [| x l IH]; intros H; [done |]. simpl.
  rewrite (H x) by (by left). rewrite IH; [done |].
  intros y Hy. apply H. by right.
Qed.

Lemma breed_in_sorted (spec : FilterSpec) (a : scalar) :
  existsb (fun v => match v with
                    | Atom b => scalar_eqb a b
                    | _ => false
                    end)
          (map (fun b => Atom (SStr b)) (sorted_strs (elements (breeds spec))))
  = breed_allowed spec (Val a).
Proof.
  apply eq_true_iff_eq. rewrite existsb_exists. unfold breed_allowed.
  split.
  - intros (v & Hv & Heq). apply in_map_iff in Hv as (b & <- & Hb).
    destruct a as [| z | s]; try done. simpl in Heq.
    apply String.eqb_eq in Heq as ->. apply bool_decide_eq_true.
    apply list_elem_of_In in Hb. rewrite sorted_strs_perm in Hb.
    by apply elem_of_elements in Hb.
  - destruct a as [| z | s]; try done. intros Hs.
    apply bool_decide_eq_true in Hs.
    exists (Atom (SStr s)). split; [| simpl; apply String.eqb_refl].
    apply in_map_iff. exists s. split; [done |].
    apply list_elem_of_In. rewrite sorted_strs_perm.
    by apply elem_of_elements.
Qed.

(** What the rule's query asks of a record. *)
Lemma matches_rule_query (spec : FilterSpec) (d : record) :
  matches (rule_query spec (sorted_strs (elements (breeds spec)))) d =
    Some (is_dog d && wanted spec d).
Proof.
  unfold rule_query, matches, holds_condition, holds_operators,
    holds_operator. simpl. rewrite breed_in_sorted.
  f_equal. unfold is_dog, wanted, field_of.
  unfold breed_allowed, sex_required, age_in_range, cell_of.
  destruct (assoc "animal_type" d) as [[| z0 | t] |];
    destruct (assoc "breed" d) as [[| z1 | b] |];
    destruct (assoc "sex_upon_outcome" d) as [[| z2 | x] |];
    destruct (assoc "age_upon_outcome_in_weeks" d) as [[| z3 | a] |];
    simpl;
    rewrite ?andb_true_r, ?andb_false_r, ?andb_false_l, ?andb_assoc;
    reflexivity.
Qed.

Lemma filter_none {A} (P : A -> bool) (l : list A) :
  (forall x, In x l -> P x = false) -> List.filter P l = [].
Proof.
  induction l as [| x l IH]; intros H; [done |]. simpl.
  rewrite (H x) by (by left). apply IH. intros y Hy. apply H. by right.
Qed.

Lemma absent_label_absent_key (docs : list record) (d : record) (c : string) :
  In d docs -> position c (labels_of docs) = None -> assoc c d = None.
Proof.
  intros Hd Hp. destruct (assoc c d) as [a |] eqn:Ha; [| done].
  apply assoc_Some_key in Ha.
  pose proof (labels_of_complete docs d c Hd Ha) as Hin.
  apply position_In in Hin. by rewrite Hp in Hin.
Qed.

(** A table that lacks one of the three labels holds no wanted record. *)
Lemma no_label_no_wanted (spec : FilterSpec) (docs : list record) :
  forallb (has_column (from_records docs))
    ["breed"; "sex_upon_outcome"; "age_upon_outcome_in_weeks"] = false ->
  List.filter (wanted spec) docs = [].
Proof.
  intros Hcols.
  assert (forall d, In d docs -> wanted spec d = false) as Hnone.
  { intros d Hd. unfold wanted. simpl in Hcols. unfold has_column in Hcols.
    simpl in Hcols.
    destruct (position "breed" (labels_of docs)) eqn:Hb.
    - destruct (position "sex_upon_outcome" (labels_of docs)) eqn:Hs.
      + destruct (position "age_upon_outcome_in_weeks" (labels_of docs))
          eqn:Ha; [done |].
        rewrite (absent_label_absent_key docs d _ Hd Ha). simpl.
        by rewrite andb_false_r.
      + rewrite (absent_label_absent_key docs d _ Hd Hs). simpl.
        by rewrite andb_false_r.
    - by rewrite (absent_label_absent_key docs d _ Hd Hb). }
  by apply filter_none.
Qed.

Lemma table_ages_comparable (docs : list record) :
  forallb age_comparable docs = true ->
  Forall (fun c => numeric_or_missing c = true)
         (series (from_records docs) "age_upon_outcome_in_weeks").
Proof.
  intros Hage. unfold series, from_records. simpl. rewrite map_map.
  apply List.Forall_forall. intros c Hc.
  apply in_map_iff in Hc as (d & <- & Hd).
  rewrite cell_in_table by done.
  by apply (proj1 (forallb_forall _ _) Hage).
Qed.

(** X25.  Where the two renderings of a rule agree.  Over a dataset in
    which no age is text and every record that meets the rule's breed,
    sex and age is a dog, the query of a registered rule and the mask in
    memory select the same records in the same order: the rows
    [apply_spec_filter] keeps from the table of the dataset are the
    rows of the records the query selects. *)
Theorem renderings_agree_when_kept_are_dogs (docs : list record)
    (name : string) (spec : FilterSpec) :
  FILTER_SPECS !! name = Some spec ->
  forallb (fun d => implb (wanted spec d) (is_dog d)) docs = true ->
  forallb age_comparable docs = true ->
  exists q kept,
    spec_to_mongo_query name = Ok q /\
    select q docs = Some kept /\
    apply_spec_filter (from_records docs) name =
      Ok (mkFrame (columns (from_records docs))
            (map (row_of (columns (from_records docs))) kept)).
Proof.
  intros Hreg Hdog Hage.
  exists (rule_query spec (sorted_strs (elements (breeds spec)))),
         (List.filter (wanted spec) docs).
  split_and!.
  - unfold spec_to_mongo_query, lookup_spec. by rewrite Hreg.
  - unfold select. rewrite matches_rule_query. f_equal.
    apply filter_agree. intros d Hd. rewrite matches_rule_query.
    pose proof (proj1 (forallb_forall _ _) Hdog d Hd) as Himp.
    simpl in Himp. by destruct (wanted spec d), (is_dog d).
  - unfold apply_spec_filter, lookup_spec. rewrite Hreg.
    destruct (forallb (has_column (from_records docs)) _) eqn:Hcols;
      cbn [negb].
    + destruct (rule_mask_keeps (from_records docs) spec
                  (table_ages_comparable docs Hage))
        as (m_min & m_max & -> & -> & Hk).
      unfold loc. rewrite Hk. f_equal. f_equal.
      change (from_records docs)
        with (mkFrame (labels_of docs) (map (row_of (labels_of docs)) docs)).
      cbn [rows columns]. rewrite filter_map_swap.
      f_equal. apply filter_agree. intros d Hd.
      by apply satisfies_row_of.
    + by rewrite (no_label_no_wanted spec docs Hcols).
Qed.

Section RenderingsOnTheShelter.
Import MemStore Sample.

(** C1.  The two renderings of a rule are not equivalent: the query
    asks for animal type ["Dog"], the mask in memory never looks at
    the animal type.  On a table holding one cat that meets the breed,
    sex and age of the water rule, the query of the rule selects
    nothing and [apply_spec_filter] returns the cat's row. *)
Theorem mask_keeps_cat_that_query_rejects :
  exists q,
    spec_to_mongo_query "WATER" = Ok q /\
    select q [tom] = Some [] /\
    apply_spec_filter (from_records [tom]) "WATER" = Ok (from_records [tom]).
Proof.
  eexists. split; [apply water_query |].
  split; vm_compute; reflexivity.
Qed.

(** Both renderings on the example entered as dogs: the first record,
    and only it. *)
Example example_as_dogs :
  exists q,
    spec_to_mongo_query "WATER" = Ok q /\
    select q [dog_newfoundland; dog_poodle] = Some [dog_newfoundland] /\
    apply_spec_filter (from_records [dog_newfoundland; dog_poodle]) "WATER"
      = Ok (from_records [dog_newfoundland]).
Proof.
  eexists. split; [apply water_query |].
  split; vm_compute; reflexivity.
Qed.

(** The age range is inclusive at both ends, in the query and in the
    mask. *)
Example bounds_are_inclusive :
  let aged (n : Z) : record :=
    [ ("animal_type", SStr "Dog"); ("breed", SStr "Newfoundland");
      ("sex_upon_outcome", SStr "Intact Female");
      ("age_upon_outcome_in_weeks", SInt n) ] in
  exists q,
    spec_to_mongo_query "WATER" = Ok q /\
    select q [aged 25; aged 26; aged 156; aged 157]
      = Some [aged 26; aged 156] /\
    apply_spec_filter (from_records [aged 25; aged 26; aged 156; aged 157])
      "WATER" = Ok (from_records [aged 26; aged 156]).
Proof.
  eexists. split; [apply water_query |].
  split; vm_compute; reflexivity.
Qed.

(** So the agreement of the two renderings does not hold of every
    dataset. *)
Lemma in_memory_mask_ignores_animal_type :
  ~ (forall (docs : list record) (name : string) (spec : FilterSpec),
       FILTER_SPECS !! name = Some spec ->
       exists q kept,
         spec_to_mongo_query name = Ok q /\
         select q docs = Some kept /\
         apply_spec_filter (from_records docs) name =
           Ok (mkFrame (columns (from_records docs))
                 (map (row_of (columns (from_records docs))) kept))).
Proof.
  intros Hclaim.
  destruct (Hclaim [tom] "WATER" water water_registered)
    as (q & kept & Hq & Hsel & Hmask).
  rewrite water_query in Hq. injection Hq as <-.
  vm_compute in Hsel. injection Hsel as <-.
  vm_compute in Hmask. discriminate.
Qed.

End RenderingsOnTheShelter.

(* ================================================================== *)
(** * Further properties of the manager *)
(* ================================================================== *)

Lemma hash_items_raises (items : list (string * value)) (e : exn) :
  hash_items items = Raise e ->
  (exists m, e = TypeError m) /\
  (exists k v, (k, v) ∈ items /\ hashable v = false).
Proof.
  induction items as [| [k v] rest IH]; [done |]. simpl.
  destruct v as [a | l | d].
  - destruct (hash_items rest) as [h | e'] eqn:Hrest; [done |].
    intros [= <-]. destruct (IH eq_refl) as [Hm (k' & v' & Hin & Hv)].
    split; [done |]. exists k', v'. split; [by apply elem_of_cons; right | done].
  - intros [= <-]. split; [by eexists |].
    exists k, (VList l). split; [apply list_elem_of_here | done].
  - intros [= <-]. split; [by eexists |].
    exists k, (VDict d). split; [apply list_elem_of_here | done].
Qed.

Lemma hash_key_raises (key : cache_key) (e : exn) :
  hash_key key = Raise e ->
  (exists m, e = TypeError m) /\
  (exists k v, (k, v) ∈ fst key /\ hashable v = false).
Proof.
  unfold hash_key. destruct (hash_items (fst key)) eqn:Hi; [done |].
  intros [= <-]. by apply hash_items_raises.
Qed.

(** The key of a request depends on the projection through its field
    names only, up to their order. *)
Lemma request_key_fields (q : option pydict) (p1 p2 : option pydict) :
  field_list p1 ≡ₚ field_list p2 ->
  request_key q p1 = request_key q p2.
Proof.
  intros Hf. apply injective_projections; [done |].
  unfold request_key. rewrite !f_tuple_of_field_list.
  destruct (field_list p1) as [| a l1], (field_list p2) as [| b l2];
    try done.
  - by apply Permutation_nil_cons in Hf.
  - symmetry in Hf. by apply Permutation_nil_cons in Hf.
  - f_equal. by apply sorted_strs_of_perm.
Qed.

Section Outcomes.
Context {S : Type} `{!Collection S}.
Implicit Types (w : State S) (c : call).

(** A write whose arguments pass validation: one request, and either
    the answer with the cache flushed, or the neutral result with the
    fault printed and the cache kept. *)
Lemma write_outcome w c :
  is_write c = true ->
  accepted c = true ->
  exists a w',
    perform c w = (Ok a, w') /\
    wire w' = (wire w ++ [request_of c])%list /\
    animals w' = after (request_of c) (animals w) /\
    ((fault_of (request_of c) (animals w) = None /\
      stdout w' = stdout w /\ _read_cache w' = ∅) \/
     (exists e, fault_of (request_of c) (animals w) = Some e /\
        a = neutral c /\
        stdout w' = (stdout w ++ [e])%list /\
        _read_cache w' = _read_cache w)).
Proof.
  intros Hw Hok.
  destruct c as [d | q p so li uc | q u | q]; simpl in *; try discriminate.
  - apply is_mapping_true_guard in Hok.
    unfold bind, create. rewrite Hok.
    unfold try_except, bind, animals_insert_one, round_trip.
    destruct (insert_one (dict_of d) (animals w)) as [[i | e] s'];
      simpl; eexists _, _; (split; [reflexivity |]); simpl;
      split_and!; try done; [by left | right; by exists e].
  - apply andb_true_iff in Hok as [Hq Hu].
    apply is_mapping_true_guard in Hq, Hu.
    unfold bind, update. rewrite Hq, Hu.
    unfold try_except, bind, animals_update_many, round_trip.
    destruct (update_many (dict_of q) [("$set", u)] (animals w))
      as [[n | e] s'];
      simpl; eexists _, _; (split; [reflexivity |]); simpl;
      split_and!; try done; [by left | right; by exists e].
  - apply is_mapping_true_guard in Hok.
    unfold bind, delete. rewrite Hok.
    unfold try_except, bind, animals_delete_many, round_trip.
    destruct (delete_many (dict_of q) (animals w)) as [[n | e] s'];
      simpl; eexists _, _; (split; [reflexivity |]); simpl;
      split_and!; try done; [by left | right; by exists e].
Qed.

Lemma write_rejected w c :
  accepted c = false ->
  exists m, perform c w = (Raise (ValueError m), w).
Proof.
  destruct c as [d | q p so li uc | q u | q]; simpl; intros Hbad.
  - apply is_mapping_false_guard in Hbad.
    unfold bind, create. rewrite Hbad. by eexists.
  - discriminate.
  - unfold bind, update.
    destruct (is_mapping q) eqn:Hq.
    + simpl in Hbad. apply is_mapping_false_guard in Hbad.
      apply is_mapping_true_guard in Hq. rewrite Hq, Hbad. by eexists.
    + apply is_mapping_false_guard in Hq. rewrite Hq. by eexists.
  - apply is_mapping_false_guard in Hbad.
    unfold bind, delete. rewrite Hbad. by eexists.
Qed.

(** The four ways a read can go. *)
Lemma read_outcome w q p so li uc :
  (uc = true /\ exists m,
     hash_key (request_key q p) = Raise (TypeError m) /\
     read q p so li uc w = (Raise (TypeError m), w)) \/
  (uc = true /\ exists docs,
     cached w q p docs /\ read q p so li uc w = (Ok docs, w)) \/
  (misses w (Read q p so li uc) = true /\
   exists docs s',
     fetch (request_cursor q p so li) (animals w) = (Ok docs, s') /\
     exists w',
       read q p so li uc w = (Ok docs, w') /\
       animals w' = s' /\ stdout w' = stdout w /\
       wire w' = (wire w ++ [Fetch (request_cursor q p so li)])%list /\
       (forall h d, _read_cache w !! h = Some d ->
                    _read_cache w' !! h = Some d) /\
       (uc = false -> _read_cache w' = _read_cache w)) \/
  (misses w (Read q p so li uc) = true /\
   exists e s',
     fetch (request_cursor q p so li) (animals w) = (Raise e, s') /\
     exists w',
       read q p so li uc w = (Ok [], w') /\
       animals w' = s' /\ stdout w' = (stdout w ++ [e])%list /\
       wire w' = (wire w ++ [Fetch (request_cursor q p so li)])%list /\
       _read_cache w' = _read_cache w).
Proof.
  destruct uc.
  - destruct (hash_key (request_key q p)) as [h | e] eqn:Hk.
    + destruct (_read_cache w !! h) as [docs |] eqn:Hc.
      * right; left. split; [done |]. exists docs.
        assert (cached w q p docs) by (by exists h).
        split; [done |]. by apply read_hit.
      * destruct (fetch (request_cursor q p so li) (animals w))
          as [[docs | e] s'] eqn:Hf.
        -- right; right; left. split; [simpl; by rewrite Hk, Hc |].
           exists docs, s'. split; [done |].
           rewrite (read_miss_answer w q p so li h docs s' Hk Hc Hf).
           eexists. split; [reflexivity |]. simpl. split_and!; try done.
           intros h' d Hd. rewrite lookup_insert_ne; [done |].
           intros ->. by rewrite Hc in Hd.
        -- right; right; right. split; [simpl; by rewrite Hk, Hc |].
           exists e, s'. split; [done |].
           rewrite (read_miss_fault w q p so li h e s' Hk Hc Hf).
           by eexists.
    + left. split; [done |].
      destruct (hash_key_raises _ _ Hk) as [[m ->] _].
      exists m. split; [done |]. by apply read_unhashable.
  - destruct (fetch (request_cursor q p so li) (animals w))
      as [[docs | e] s'] eqn:Hf.
    + right; right; left. split; [done |]. exists docs, s'. split; [done |].
      rewrite (read_direct_answer w q p so li docs s' Hf). by eexists.
    + right; right; right. split; [done |]. exists e, s'. split; [done |].
      rewrite (read_direct_fault w q p so li e s' Hf). by eexists.
Qed.

End Outcomes.

Lemma request_key_raises_iff (q p : option pydict) :
  (exists e, hash_key (request_key q p) = Raise e) <->
  (exists k v, (k, v) ∈ _normalize_query q /\ hashable v = false).
Proof.
  split.
  - intros [e He]. destruct (hash_key_raises _ _ He) as [_ (k & v & Hin & Hv)].
    exists k, v. split; [| done].
    unfold request_key, _cache_key in Hin. cbn [fst] in Hin.
    by rewrite sorted_items_perm in Hin.
  - intros (k & v & Hin & Hv). unfold hash_key, request_key, _cache_key.
    cbn [fst snd].
    destruct (hash_items_unhashable (sorted_items (_normalize_query q)))
      as [m ->]; [| by eexists].
    exists k, v. split; [| done]. by rewrite sorted_items_perm.
Qed.

Section ManagerBehaviour.
Context {S : Type} `{!Collection S}.
Implicit Types (w : State S) (c : call).

(** X1. [read] raises exactly when caching is on and the query (after
    [query or {}]) holds a list or a dict as a value; what it raises is
    then a [TypeError], and the state is the one it was called in. *)
Theorem read_raises_exactly_on_unhashable w q p so li uc :
  ((exists e, fst (read q p so li uc w) = Raise e) <->
   (uc = true /\
    exists k v, (k, v) ∈ _normalize_query q /\ hashable v = false)) /\
  (forall e, fst (read q p so li uc w) = Raise e ->
             (exists m, e = TypeError m) /\
             snd (read q p so li uc w) = w).
Proof.
  destruct (read_outcome w q p so li uc)
    as [[Huc (m & Hk & Hr)] | [[Huc (docs & Hc & Hr)] |
        [[Hm (docs & s' & Hf & w' & Hr & _)] |
         [Hm (e & s' & Hf & w' & Hr & _)]]]]; rewrite Hr; simpl.
  - split.
    + split; [intros _ | by eexists].
      split; [done |]. apply (request_key_raises_iff q p). by eexists.
    + intros e [= <-]. split; [by eexists | done].
  - split; [| done]. split; [by intros [e He] |].
    intros [_ Hbad]. apply (request_key_raises_iff q p) in Hbad as [e He].
    destruct Hc as (h & Hh & _). by rewrite Hh in He.
  - split; [| done]. split; [by intros [e He] |].
    intros [-> Hbad]. apply (request_key_raises_iff q p) in Hbad as [e He].
    simpl in Hm. by rewrite He in Hm.
  - split; [| done]. split; [by intros [e' He] |].
    intros [-> Hbad]. apply (request_key_raises_iff q p) in Hbad as [e' He].
    simpl in Hm. by rewrite He in Hm.
Qed.

(** X2. A read with [use_cache=False] neither consults nor updates the
    cache: an entry cached before is still the answer of the next
    cached read, whatever the collection returned in between. *)
Theorem uncached_read_keeps_cache w q p so li q' p' so' li' old :
  cached w q' p' old ->
  _read_cache (snd (read q p so li false w)) = _read_cache w /\
  read q' p' so' li' true (snd (read q p so li false w)) =
    (Ok old, snd (read q p so li false w)).
Proof.
  intros Hc.
  assert (_read_cache (snd (read q p so li false w)) = _read_cache w) as He.
  { destruct (fetch (request_cursor q p so li) (animals w))
      as [[docs | e] s'] eqn:Hf.
    - by rewrite (read_direct_answer w q p so li docs s' Hf).
    - by rewrite (read_direct_fault w q p so li e s' Hf). }
  split; [done |]. apply read_hit.
  destruct Hc as (h & Hk & Hl). exists h. split; [done |]. by rewrite He.
Qed.

(** X3. No read removes or replaces a cache entry: what was cached
    under a key before a read is cached under it after the read. *)
Theorem read_keeps_entries w q p so li uc h docs :
  _read_cache w !! h = Some docs ->
  _read_cache (snd (read q p so li uc w)) !! h = Some docs.
Proof.
  intros Hh.
  destruct (read_outcome w q p so li uc)
    as [[Huc (m & Hk & Hr)] | [[Huc (d & Hc & Hr)] |
        [[Hm (d & s' & Hf & w' & Hr & _ & _ & _ & Hkeep & _)] |
         [Hm (e & s' & Hf & w' & Hr & _ & _ & _ & Hsame)]]]];
    rewrite Hr; simpl; try done.
  - by apply Hkeep.
  - by rewrite Hsame.
Qed.

(** X4. A projection that names no field other than [_id] (the empty
    projection, or [{'_id': 1}]) is cached under the key of the
    unprojected request: a list cached for one is returned for the
    other, without a request. *)
Theorem id_only_projection_shares_entry w q p1 p2 so li docs :
  field_list p1 = [] ->
  field_list p2 = [] ->
  cached w q p1 docs ->
  read q p2 so li true w = (Ok docs, w).
Proof.
  intros H1 H2 (h & Hk & Hc). apply read_hit. exists h. split; [| done].
  rewrite <- Hk. f_equal. apply request_key_fields. by rewrite H1, H2.
Qed.

(** X5. [create] reports the truth value of the identifier the
    collection answers.  An insert answered with a falsy identifier
    ([0], the empty string, [None]) is reported [False] although the
    document was stored, the cache flushed and nothing printed. *)
Theorem create_reports_falsy_identifier w document i s' :
  is_mapping document = true ->
  insert_one (dict_of document) (animals w) = (Ok i, s') ->
  truthy_scalar i = false ->
  create document w =
    (Ok false,
     mkState s' ∅ (stdout w) (wire w ++ [InsertOne (dict_of document)])).
Proof.
  intros Hok Hi Hfalsy. apply is_mapping_true_guard in Hok.
  unfold create. rewrite Hok.
  unfold try_except, bind, animals_insert_one, round_trip. rewrite Hi.
  simpl. by rewrite Hfalsy.
Qed.

(** X6. A call sends at most one request.  Either it sends none and
    leaves the whole state as it was, or it sends exactly the request
    of the call and the collection moves accordingly. *)
Theorem call_sends_at_most_one_request w c :
  snd (perform c w) = w \/
  (wire (snd (perform c w)) = (wire w ++ [request_of c])%list /\
   animals (snd (perform c w)) = after (request_of c) (animals w)).
Proof.
  destruct (is_write c) eqn:Hw.
  - destruct (accepted c) eqn:Hok.
    + destruct (write_outcome w c Hw Hok) as (a & w' & Hp & Hwire & Han & _).
      rewrite Hp. by right.
    + destruct (write_rejected w c Hok) as [m Hp]. rewrite Hp. by left.
  - destruct c as [d | q p so li uc | q u | q]; try discriminate.
    simpl. unfold bind.
    destruct (read_outcome w q p so li uc)
      as [[Huc (m & Hk & Hr)] | [[Huc (d & Hc & Hr)] |
          [[Hm (d & s' & Hf & w' & Hr & Ha & _ & Hwire & _)] |
           [Hm (e & s' & Hf & w' & Hr & Ha & _ & Hwire & _)]]]];
      rewrite Hr; simpl; try (by left); right; by rewrite Hf.
Qed.

(** X7. Whatever a call raises is a [ValueError] or a [TypeError], and
    a call that raises has changed nothing: no fault of the collection
    and no other exception reaches the caller. *)
Theorem only_argument_errors_escape w c e :
  fst (perform c w) = Raise e ->
  ((exists m, e = ValueError m) \/ (exists m, e = TypeError m)) /\
  snd (perform c w) = w.
Proof.
  destruct (is_write c) eqn:Hw.
  - destruct (accepted c) eqn:Hok.
    + destruct (write_outcome w c Hw Hok) as (a & w' & Hp & _).
      by rewrite Hp.
    + destruct (write_rejected w c Hok) as [m Hp]. rewrite Hp.
      intros [= <-]. split; [left; by eexists | done].
  - destruct c as [d | q p so li uc | q u | q]; try discriminate.
    simpl. unfold bind.
    destruct (read_outcome w q p so li uc)
      as [[Huc (m & Hk & Hr)] | [[Huc (d & Hc & Hr)] |
          [[Hm (d & s' & Hf & w' & Hr & _)] |
           [Hm (e' & s' & Hf & w' & Hr & _)]]]];
      rewrite Hr; simpl; try done.
    intros [= <-]. split; [right; by eexists | done].
Qed.

(** X8. After [clear_cache] a cached read of any hashable request goes
    to the collection: exactly one request is sent. *)
Theorem clear_cache_forces_requery w q p so li h :
  hash_key (request_key q p) = Ok h ->
  exists docs w',
    read q p so li true (snd (clear_cache w)) = (Ok docs, w') /\
    wire w' = (wire w ++ [Fetch (request_cursor q p so li)])%list.
Proof.
  intros Hk.
  apply (read_miss_contacts (snd (clear_cache w)) q p so li h Hk).
  apply lookup_empty.
Qed.

End ManagerBehaviour.

(* ================================================================== *)
(** * Further properties of the table helpers *)
(* ================================================================== *)

Lemma keys_assoc_set {A} (k : string) (v : A) (d : list (string * A)) :
  map fst (assoc_set k v d) =
    if existsb (String.eqb k) (map fst d) then map fst d
    else (map fst d ++ [k])%list.
Proof.
  induction d as [| [k' v'] d IH]; [done |]. simpl.
  destruct (String.eqb k k') eqn:Hk; simpl.
  - by apply String.eqb_eq in Hk as ->.
  - rewrite IH. by destruct (existsb (String.eqb k) (map fst d)).
Qed.

Lemma existsb_eqb_In (k : string) (l : list string) :
  existsb (String.eqb k) l = true <-> In k l.
Proof.
  rewrite existsb_exists. split.
  - intros (x & Hx & Heq). by apply String.eqb_eq in Heq as ->.
  - intros Hk. exists k. split; [done | apply String.eqb_refl].
Qed.

Lemma keys_assoc_set_NoDup {A} (k : string) (v : A) (d : list (string * A)) :
  List.NoDup (map fst d) -> List.NoDup (map fst (assoc_set k v d)).
Proof.
  intros Hd. rewrite keys_assoc_set.
  destruct (existsb (String.eqb k) (map fst d)) eqn:He; [done |].
  apply NoDup_ListNoDup, NoDup_app. apply NoDup_ListNoDup in Hd.
  split_and!; [done | | apply NoDup_singleton].
  intros x Hx Hk. apply list_elem_of_singleton in Hk as ->.
  apply list_elem_of_In, existsb_eqb_In in Hx. by rewrite Hx in He.
Qed.

Lemma keys_assoc_set_In {A} (k : string) (v : A) (d : list (string * A))
    (x : string) :
  In x (map fst (assoc_set k v d)) <-> In x (map fst d) \/ x = k.
Proof.
  rewrite keys_assoc_set.
  destruct (existsb (String.eqb k) (map fst d)) eqn:He.
  - apply existsb_eqb_In in He. split; [by left |].
    by intros [H | ->].
  - rewrite in_app_iff. simpl. intuition (subst; auto).
Qed.

Lemma keys_fold_assoc_set {A} (v : A) (fs : list string)
    (d : list (string * A)) :
  List.NoDup (map fst d) ->
  List.NoDup (map fst (fold_left (fun d f => assoc_set f v d) fs d)) /\
  forall x,
    In x (map fst (fold_left (fun d f => assoc_set f v d) fs d)) <->
    In x (map fst d) \/ In x fs.
Proof.
  revert d. induction fs as [| f fs IH]; intros d Hd.
  - simpl. split; [done |]. intros x. tauto.
  - simpl. destruct (IH (assoc_set f v d)) as [Hn Hin].
    { by apply keys_assoc_set_NoDup. }
    split; [done |]. intros x. rewrite Hin, keys_assoc_set_In.
    split; intros H; intuition (subst; auto).
Qed.

(** The field names [read] keys on, for the projection [read_df]
    builds: the requested names other than [_id], each once. *)
Lemma field_list_normalized (fs : list string) :
  List.NoDup (field_list (_normalize_fields (Some fs))) /\
  forall x, In x (field_list (_normalize_fields (Some fs))) <->
            x <> "_id" /\ In x fs.
Proof.
  destruct fs as [| f fs].
  - simpl. split; [constructor |]. intros x. tauto.
  - unfold _normalize_fields, field_list, field_names.
    destruct (keys_fold_assoc_set (Atom (SInt 1)) (f :: fs) [])
      as [Hn Hin]; [constructor |].
    set (proj := fold_left _ (f :: fs) []) in *.
    split.
    + apply List.NoDup_filter. by apply keys_assoc_set_NoDup.
    + intros x. rewrite filter_In, keys_assoc_set_In, Hin.
      rewrite negb_true_iff, String.eqb_neq. simpl.
      split; intros H; intuition (subst; auto).
Qed.

Section TableKeys.
Context {S : Type} `{!Collection S} {RT : Runtime}.
Implicit Types (w : State S).

(** X9. The cache entry behind [read_df] does not depend on the order
    of the requested fields, on repetitions among them, or on [_id]
    being listed: once the records for a field list are cached, a
    [read_df] for any field list naming the same fields is answered
    from that entry, without a request. *)
Theorem read_df_ignores_field_order w q fs1 fs2 docs :
  (forall f, f <> "_id" -> (In f fs1 <-> In f fs2)) ->
  cached w q (_normalize_fields (Some fs1)) docs ->
  read_df q (Some fs2) false w = (Ok (_clean_df (from_records docs)), w).
Proof.
  intros Hsame Hc.
  assert (read q (_normalize_fields (Some fs2)) None 0 true w = (Ok docs, w))
    as Hr.
  { apply read_hit. destruct Hc as (h & Hk & Hl). exists h.
    split; [| done]. rewrite <- Hk. f_equal. apply request_key_fields.
    destruct (field_list_normalized fs1) as [Hn1 Hi1].
    destruct (field_list_normalized fs2) as [Hn2 Hi2].
    apply Permutation.NoDup_Permutation; [done | done |].
    intros x. rewrite Hi1, Hi2. specialize (Hsame x). tauto. }
  unfold read_df, bind, ret. cbn [negb]. by rewrite Hr.
Qed.

End TableKeys.

Lemma add_labels_NoDup (ks cols : list string) :
  List.NoDup cols -> List.NoDup (add_labels ks cols).
Proof.
  revert cols. induction ks as [| k ks IH]; intros cols Hc; [done |].
  simpl. apply IH. destruct (existsb (String.eqb k) cols) eqn:He; [done |].
  apply NoDup_ListNoDup, NoDup_app. apply NoDup_ListNoDup in Hc.
  split_and!; [done | | apply NoDup_singleton].
  intros x Hx Hk. apply list_elem_of_singleton in Hk as ->.
  apply list_elem_of_In, existsb_eqb_In in Hx. by rewrite Hx in He.
Qed.

Lemma labels_of_NoDup (docs : list record) : List.NoDup (labels_of docs).
Proof.
  unfold labels_of. assert (List.NoDup (@nil string)) as H by constructor.
  revert H. generalize (@nil string) as cols.
  induction docs as [| d docs IH]; intros cols Hc; [done |].
  simpl. by apply IH, add_labels_NoDup.
Qed.

Lemma position_remove_self (cols : list string) (c : string) (k : nat) :
  List.NoDup cols ->
  position c cols = Some k ->
  position c (remove_nth k cols) = None.
Proof.
  revert k. induction cols as [| c' cols IH]; intros k Hn Hp; [done |].
  inversion Hn as [| ? ? Hnotin Hn']; subst. simpl in Hp.
  destruct (String.eqb c c') eqn:Hc.
  - apply String.eqb_eq in Hc as ->. injection Hp as <-. simpl.
    destruct (position c' cols) eqn:Hpos; [| done].
    exfalso. apply Hnotin, position_In. by rewrite Hpos.
  - destruct (position c cols) as [k' |] eqn:Hk; [| done].
    injection Hp as <-. simpl. rewrite Hc.
    by rewrite (IH k' Hn' eq_refl).
Qed.

Lemma from_records_empty (docs : list record) :
  empty (from_records docs) = true -> columns (from_records docs) = [].
Proof.
  unfold empty, from_records. simpl.
  destruct docs as [| d docs]; [done |]. simpl.
  by destruct (labels_of (d :: docs)).
Qed.

Lemma lstrip_split (s : string) :
  exists l, s = l ++ lstrip s /\ blank l = true /\
            starts_blank (lstrip s) = false.
Proof.
  induction s as [| a s (l & Hs & Hl & Hh)]; [by exists EmptyString |].
  simpl. destruct (is_space a) eqn:Ha.
  - exists (String a l). split_and!; [| | done].
    + exact (f_equal (String a) Hs).
    + unfold blank in *. simpl. by rewrite Ha.
  - exists EmptyString. simpl. by rewrite Ha.
Qed.

Lemma rstrip_split (s : string) :
  exists r, s = rstrip s ++ r /\ blank r = true /\
            ends_blank (rstrip s) = false.
Proof.
  induction s as [| a s (r & Hs & Hr & He)]; [by exists EmptyString |].
  simpl. destruct (rstrip s) as [| b u] eqn:Hu.
  - change (s = r) in Hs. subst r. destruct (is_space a) eqn:Ha.
    + exists (String a s). split_and!; [done | | done].
      unfold blank in *. simpl. by rewrite Ha.
    + exists s. split_and!; [done | done |]. simpl. by rewrite Ha.
  - exists r. split_and!; [| done | done].
    exact (f_equal (String a) Hs).
Qed.

Lemma rstrip_head (s : string) :
  starts_blank s = false -> starts_blank (rstrip s) = false.
Proof.
  destruct s as [| a s]; [done |]. simpl. intros Ha.
  destruct (rstrip s); [by rewrite Ha |]. done.
Qed.

(** [strip] removes the white space at the two ends, and nothing else. *)
Lemma strip_trims (s : string) : trimmed s (strip s).
Proof.
  unfold trimmed, strip.
  destruct (lstrip_split s) as (l & Hs & Hl & Hh).
  destruct (rstrip_split (lstrip s)) as (r & Hs' & Hr & He).
  exists l, r. split_and!; try done.
  - by rewrite <- Hs', <- Hs.
  - by apply rstrip_head.
Qed.

Lemma apply_spec_filter_comparable (df : DataFrame) (name : string)
    (spec : FilterSpec) :
  FILTER_SPECS !! name = Some spec ->
  comparable df "age_upon_outcome_in_weeks" ->
  exists out,
    apply_spec_filter df name = Ok out /\
    columns out = columns df /\
    rows out =
      (if forallb (has_column df)
            ["breed"; "sex_upon_outcome"; "age_upon_outcome_in_weeks"]
       then List.filter (satisfies spec (columns df)) (rows df)
       else []).
Proof.
  intros Hreg Hnum. unfold apply_spec_filter, lookup_spec. rewrite Hreg.
  destruct (forallb _ _); cbn [negb]; [| by eexists].
  destruct (rule_mask_keeps df spec Hnum) as (m_min & m_max & -> & -> & Hk).
  eexists. split; [reflexivity |]. unfold loc. simpl. by rewrite Hk.
Qed.

Section CleanedTableFacts.
Context {RT : Runtime}.

Lemma clean_cell_text (c : string) (x : cell) :
  In c text_fields -> clean_cell c x = as_text x.
Proof.
  unfold text_fields. simpl. intros Hc.
  repeat (destruct Hc as [<- | Hc]; [reflexivity |]). done.
Qed.

(** The ages of a cleaned table are numbers or missing. *)
Lemma cleaned_ages_comparable (docs : list record) :
  comparable (_clean_df (from_records docs)) "age_upon_outcome_in_weeks".
Proof.
  unfold comparable. rewrite series_clean.
  - apply Forall_map, Forall_forall. intros x _. simpl.
    rewrite clean_cell_numeric by apply list_elem_of_here.
    destruct x as [| [| z | s]]; try done. simpl.
    by destruct (parse_numeric s).
  - apply from_records_aligned.
  - done.
  - by right.
Qed.

Lemma lookup_map {A B} (f : A -> B) (l : list A) (i : nat) :
  map f l !! i = option_map f (l !! i).
Proof.
  revert i. induction l as [| x l IH]; intros [| i]; simpl; done.
Qed.

(** The cell of the cleaned table in the row of a record, under a
    label other than [_id]: the record's value, cleaned. *)
Lemma cleaned_cell (docs : list record) (i : nat) (d : record) (c : string) :
  docs !! i = Some d ->
  c <> "_id" ->
  position c (labels_of docs) <> None \/ clean_cell c NaN = NaN ->
  series (_clean_df (from_records docs)) c !! i =
    Some (clean_cell c (cell_of (assoc c d))).
Proof.
  intros Hi Hid Hc.
  rewrite series_clean; [| apply from_records_aligned | done | done].
  unfold series, from_records. cbn [rows columns].
  rewrite !lookup_map, Hi. simpl. f_equal. f_equal.
  apply cell_in_table.
  by apply list_elem_of_In, (list_elem_of_lookup_2 _ i).
Qed.

Lemma cleaned_has_no_id (docs : list record) :
  has_column (_clean_df (from_records docs)) "_id" = false.
Proof.
  unfold has_column. destruct (empty (from_records docs)) eqn:He.
  - unfold _clean_df. rewrite He. by rewrite (from_records_empty docs He).
  - rewrite (_clean_df_by_rows _ He). cbn [columns]. unfold clean_columns.
    change (columns (from_records docs)) with (labels_of docs).
    destruct (position "_id" (labels_of docs)) as [k |] eqn:Hk.
    + by rewrite (position_remove_self _ _ _ (labels_of_NoDup docs) Hk).
    + by rewrite Hk.
Qed.

End CleanedTableFacts.

Section TableContents.
Context {S : Type} `{!Collection S} {RT : Runtime}.
Implicit Types (w : State S).

Lemma read_df_table w q fields force_refresh out w' :
  read_df q fields force_refresh w = (Ok out, w') ->
  exists docs, out = _clean_df (from_records docs).
Proof.
  unfold read_df, bind, ret.
  destruct (read q (_normalize_fields fields) None 0 (negb force_refresh) w)
    as [[docs | e] w1]; [| done].
  intros [= <- <-]. by exists docs.
Qed.

(** X10. A table returned by [read_df] has no [_id] column, whatever
    the collection returned and whether or not [_id] was requested. *)
Theorem read_df_never_shows_id w q fields force_refresh out w' :
  read_df q fields force_refresh w = (Ok out, w') ->
  has_column out "_id" = false.
Proof.
  intros [docs ->]%read_df_table. apply cleaned_has_no_id.
Qed.


Lemma text_field_not_id (c : string) : In c text_fields -> c <> "_id".
Proof.
  unfold text_fields. simpl. intros Hc ->.
  repeat (destruct Hc as [Hc | Hc]; [discriminate |]). done.
Qed.


(** The cell [read_df] shows for a record that holds text under a
    text label. *)
Lemma text_cell (docs : list record) (i : nat) (d : record) (c : string)
    (s : string) :
  docs !! i = Some d ->
  In c text_fields ->
  assoc c d = Some (SStr s) ->
  series (_clean_df (from_records docs)) c !! i = Some (Val (SStr (strip s))).
Proof.
  intros Hi Hc Hs.
  rewrite (cleaned_cell docs i d c Hi (text_field_not_id c Hc)).
  - rewrite clean_cell_text by done. by rewrite Hs.
  - left. apply position_In.
    apply (labels_of_complete docs d c).
    + by apply list_elem_of_In, (list_elem_of_lookup_2 _ i).
    + by apply (assoc_Some_key c d (SStr s)).
Qed.



(** X11.  In the table [read_df] returns, under each text label (name,
    breed, animal type, sex), the cell of a record that holds plain
    text there (printable ASCII and the usual white space) is that text
    without the white space at its two ends: what was removed on either
    side is white space only, and what is left neither starts nor ends
    with white space. *)
Theorem read_df_trims_text w q fields force_refresh docs w' :
  read q (_normalize_fields fields) None 0 (negb force_refresh) w
    = (Ok docs, w') ->
  exists out,
    read_df q fields force_refresh w = (Ok out, w') /\
    forall i d c s,
      docs !! i = Some d ->
      In c text_fields ->
      assoc c d = Some (SStr s) ->
      is_plain s = true ->
      exists t, series out c !! i = Some (Val (SStr t)) /\ trimmed s t.
Proof.
  intros Hread. exists (_clean_df (from_records docs)). split.
  - unfold read_df, bind, ret. by rewrite Hread.
  - intros i d c s Hi Hc Hs _. exists (strip s).
    split; [by apply (text_cell docs i d) | apply strip_trims].
Qed.

(** X17.  When the read behind [read_df] is not answered from the
    cache and the collection faults on it, [read_df] does not fail: it
    returns the table with no row and no column, the fault is printed,
    the cache is as it was and the one fetch has been sent. *)
Theorem read_df_on_fault w q fields force_refresh e s' :
  misses w (Read q (_normalize_fields fields) None 0 (negb force_refresh))
    = true ->
  fetch (request_cursor q (_normalize_fields fields) None 0) (animals w)
    = (Raise e, s') ->
  read_df q fields force_refresh w =
    (Ok (mkFrame [] []),
     mkState s' (_read_cache w) (stdout w ++ [e])
       (wire w ++ [Fetch (request_cursor q (_normalize_fields fields)
                            None 0)])).
Proof.
  intros Hm Hf. unfold read_df, bind, ret.
  assert (read q (_normalize_fields fields) None 0 (negb force_refresh) w =
          (Ok [],
           mkState s' (_read_cache w) (stdout w ++ [e])
             (wire w ++ [Fetch (request_cursor q (_normalize_fields fields)
                                  None 0)]))) as ->.
  { destruct (negb force_refresh).
    - unfold misses in Hm.
      destruct (hash_key (request_key q (_normalize_fields fields)))
        as [h |] eqn:Hk; [| done].
      destruct (_read_cache w !! h) eqn:Hc; [done |].
      by apply (read_miss_fault w _ _ _ _ h e s').
    - by apply read_direct_fault. }
  reflexivity.
Qed.

(** X26.  [read_df] cannot serve a query that holds a list or a dict
    as a value (any [$in] or [$gte]/[$lte] constraint) unless it is
    told to refresh: without [force_refresh] it raises the [TypeError]
    of the cache lookup and leaves the manager as it was; with
    [force_refresh] it returns a table. *)
Theorem read_df_refuses_operator_queries w q fields (k : string) (v : value) :
  (k, v) ∈ _normalize_query q ->
  hashable v = false ->
  (exists msg, read_df q fields false w = (Raise (TypeError msg), w)) /\
  (exists out w', read_df q fields true w = (Ok out, w')).
Proof.
  intros Hin Hv. split.
  - destruct (proj2 (request_key_raises_iff q (_normalize_fields fields)))
      as [e He]; [by exists k, v |].
    destruct (hash_key_raises _ _ He) as [[msg ->] _].
    exists msg. unfold read_df, bind. cbn [negb].
    by rewrite (read_unhashable w q _ None 0 _ He).
  - destruct (read_direct_returns w q (_normalize_fields fields) None 0)
      as (docs & w' & Hr & _).
    eexists _, w'. unfold read_df, bind, ret. cbn [negb]. by rewrite Hr.
Qed.

(** X12. A table returned by [read_df] can always be filtered: for a
    registered rule [apply_spec_filter] returns, with the labels of the
    table and the rows that satisfy the rule, and never raises on an
    age the collection stored as text. *)
Theorem read_df_table_can_be_filtered w q fields force_refresh out w'
    (name : string) (spec : FilterSpec) :
  read_df q fields force_refresh w = (Ok out, w') ->
  FILTER_SPECS !! name = Some spec ->
  exists kept,
    apply_spec_filter out name = Ok kept /\
    columns kept = columns out /\
    rows kept =
      (if forallb (has_column out)
            ["breed"; "sex_upon_outcome"; "age_upon_outcome_in_weeks"]
       then List.filter (satisfies spec (columns out)) (rows out)
       else []).
Proof.
  intros [docs ->]%read_df_table Hreg.
  apply apply_spec_filter_comparable; [done |].
  apply cleaned_ages_comparable.
Qed.

End TableContents.

(* ================================================================== *)
(** * Further properties of the filter evaluator *)
(* ================================================================== *)

Lemma compare_series_outcome op sym (xs : list cell) (bound : Z) :
  (exists m, compare_series op sym xs bound = Ok m /\
             Forall (fun c => numeric_or_missing c = true) xs) \/
  (exists msg, compare_series op sym xs bound = Raise (TypeError msg)).
Proof.
  induction xs as [| c xs IH]; [left; by eexists |]. simpl.
  destruct c as [| [| z | s]]; simpl; try (right; by eexists);
    (destruct IH as [(m & -> & Hm) | [msg ->]];
       [left; eexists; split; [reflexivity | by constructor]
       | right; by eexists]).
Qed.

Lemma keep_sublist {A} (mask : list bool) (l : list A) :
  sublist (keep mask l) l.
Proof.
  revert l. induction mask as [| b mask IH]; intros [| x l]; simpl;
    try apply sublist_nil_l.
  destruct b; [by apply sublist_skip | by apply sublist_cons].
Qed.

Lemma filter_idempotent {A} (P : A -> bool) (l : list A) :
  List.filter P (List.filter P l) = List.filter P l.
Proof.
  induction l as [| x l IH]; [done |]. simpl.
  destruct (P x) eqn:Hx; simpl; by rewrite ?Hx, IH.
Qed.

Lemma comparable_filter (cols : list string) (P : list cell -> bool)
    (rs : list (list cell)) (by_ : string) :
  comparable (mkFrame cols rs) by_ ->
  comparable (mkFrame cols (List.filter P rs)) by_.
Proof.
  unfold comparable, series. simpl. rewrite !List.Forall_map.
  intros H. apply List.Forall_forall. intros r [Hr _]%filter_In.
  by apply (proj1 (List.Forall_forall _ _) H).
Qed.

(** X13. [apply_spec_filter] raises [KeyError] exactly on the names
    that are not registered, whatever the frame, also when the frame
    lacks the three columns; anything else it raises is the
    [TypeError] of an age that cannot be compared. *)
Theorem apply_spec_filter_errors (df : DataFrame) (name : string) :
  (apply_spec_filter df name = Raise (KeyError name) <->
   FILTER_SPECS !! name = None) /\
  (forall e, apply_spec_filter df name = Raise e ->
             e = KeyError name \/ exists msg, e = TypeError msg).
Proof.
  unfold apply_spec_filter, lookup_spec.
  destruct (FILTER_SPECS !! name) as [spec |];
    [| split; [done | intros e [= <-]; by left]].
  destruct (negb _); [split; [split |]; done |].
  unfold ge, le.
  destruct (compare_series_outcome Z.geb ">="
              (series df "age_upon_outcome_in_weeks") (age_min spec))
    as [(m1 & -> & _) | [msg ->]].
  - destruct (compare_series_outcome Z.leb "<="
                (series df "age_upon_outcome_in_weeks") (age_max spec))
      as [(m2 & -> & _) | [msg ->]].
    + split; [split |]; done.
    + split; [split; done |]. intros e [= <-]. right. by eexists.
  - split; [split; done |]. intros e [= <-]. right. by eexists.
Qed.

(** X14. What [apply_spec_filter] returns is cut out of the frame it
    was given: the same labels, and rows that are a subsequence of the
    frame's rows, none added, changed or reordered. *)
Theorem apply_spec_filter_is_subframe (df out : DataFrame) (name : string) :
  apply_spec_filter df name = Ok out ->
  columns out = columns df /\ sublist (rows out) (rows df).
Proof.
  unfold apply_spec_filter.
  destruct (lookup_spec name) as [spec | e]; [| done].
  destruct (negb _).
  - intros [= <-]. split; [done | apply sublist_nil_l].
  - destruct (ge _ _) as [m1 | e1]; [| done].
    destruct (le _ _) as [m2 | e2]; [| done].
    intros [= <-]. split; [done | apply keep_sublist].
Qed.

(** X15. Filtering is idempotent: a frame [apply_spec_filter] returned
    for a rule is returned unchanged when the rule is applied to it
    again. *)
Theorem apply_spec_filter_idempotent (df out : DataFrame) (name : string) :
  apply_spec_filter df name = Ok out ->
  apply_spec_filter out name = Ok out.
Proof.
  intros Hfirst. pose proof Hfirst as Hsecond. revert Hfirst.
  unfold apply_spec_filter at 1, lookup_spec.
  destruct (FILTER_SPECS !! name) as [spec |] eqn:Hreg; [| done].
  destruct (forallb (has_column df) _) eqn:Hcols; cbn [negb].
  - unfold ge.
    destruct (compare_series_outcome Z.geb ">="
                (series df "age_upon_outcome_in_weeks") (age_min spec))
      as [(m1 & Hge & Hnum) | [msg ->]]; [| done].
    destruct (apply_spec_filter_comparable df name spec Hreg Hnum)
      as (out' & Hout & Hc & Hr).
    rewrite Hout in Hsecond. injection Hsecond as ->. intros _.
    rewrite Hcols in Hr.
    assert (comparable out "age_upon_outcome_in_weeks") as Hnum'.
    { destruct out as [cols rs]. simpl in Hc, Hr. subst.
      apply comparable_filter. by destruct df. }
    destruct (apply_spec_filter_comparable out name spec Hreg Hnum')
      as (out2 & Hout2 & Hc2 & Hr2).
    rewrite Hout2. f_equal. destruct out as [cols rs], out2 as [cols2 rs2].
    simpl in *. subst. f_equal.
    unfold has_column in *. simpl in *. rewrite Hcols.
    apply filter_idempotent.
  - intros [= <-]. unfold apply_spec_filter, lookup_spec. rewrite Hreg.
    unfold has_column in *. simpl in *. by rewrite Hcols.
Qed.

(* ================================================================== *)
(** * The base table and the memo of filtered tables *)
(* ================================================================== *)

Lemma comparable_permuted (df out : DataFrame) (by_ : string) :
  columns out = columns df ->
  rows out ≡ₚ rows df ->
  comparable df by_ -> comparable out by_.
Proof.
  unfold comparable, series. intros -> Hp H.
  rewrite List.Forall_map in *. apply List.Forall_forall. intros r Hr.
  apply (proj1 (List.Forall_forall _ _) H).
  by apply (Permutation_in _ Hp).
Qed.

Section BaseTable.
Context {S : Type} `{!Collection S} {RT : Runtime} {ST : Sorting}.
Implicit Types (w : State S).

(** X16.  [load_base_df] adds no failure of its own to the manager's
    [read_df].  Whenever [read_df] has returned a table whose ages can
    be ordered, [load_base_df] returns, in the state [read_df] left,
    a table with the same labels and the same rows in some order, whose
    ages can still be compared; a table without the age column (the
    empty table among them) is returned as it is. *)
Theorem load_base_df_sorts_what_was_read w force_refresh df_all w' :
  read_df (Some []) (Some REQUIRED_FIELDS) force_refresh w = (Ok df_all, w') ->
  comparable df_all DEFAULT_SORT_FIELD ->
  exists out,
    load_base_df force_refresh w = (Ok out, w') /\
    columns out = columns df_all /\
    rows out ≡ₚ rows df_all /\
    comparable out DEFAULT_SORT_FIELD /\
    (has_column df_all DEFAULT_SORT_FIELD = false -> out = df_all).
Proof.
  intros Hread Hcmp. unfold load_base_df, bind. rewrite Hread.
  destruct (has_column df_all DEFAULT_SORT_FIELD) eqn:Hcol.
  - destruct (sort_values_rows df_all DEFAULT_SORT_FIELD DEFAULT_SORT_ASC
                Hcmp) as (out & Hs & Hc & Hr).
    exists out. unfold lift. rewrite Hs. split_and!; try done.
    by apply (comparable_permuted df_all).
  - exists df_all. by split_and!.
Qed.

End BaseTable.

Section FilteredTables.
Context {S : Type} `{!Collection S} {RT : Runtime}.
Implicit Types (st : App S).

(** X18. A filtered table is computed once.  After a call for a filter
    other than RESET has returned, every later call whose name
    normalizes to the same text ([None] and the empty string aside,
    letter case ignored) returns that same table from the memo and
    changes nothing, whichever way the tables are computed. *)
Theorem get_filtered_df_memoizes st st1 use_db base ft df
    use_db2 base2 ft2 :
  get_filtered_df use_db base ft st = (Ok df, st1) ->
  normalize_filter ft <> "RESET" ->
  normalize_filter ft2 = normalize_filter ft ->
  get_filtered_df use_db2 base2 ft2 st1 = (Ok df, st1) /\
  _filter_cache st1 !! normalize_filter ft = Some df.
Proof.
  intros Hfirst Hne Hsame.
  assert (_filter_cache st1 !! normalize_filter ft = Some df) as Hmemo.
  { revert Hfirst. unfold get_filtered_df.
    rewrite (proj2 (String.eqb_neq _ _) Hne).
    unfold bind, gets, ret, modify.
    destruct (_filter_cache st !! normalize_filter ft) as [d |] eqn:Hm.
    - by intros [= <- <-].
    - destruct use_db.
      + unfold lift at 1.
        destruct (spec_to_mongo_query (normalize_filter ft)); [| done].
        unfold on_db. destruct (read_df _ _ _ _) as [[d | e] w']; [| done].
        intros [= <- <-]. simpl. apply lookup_insert_eq.
      + unfold lift.
        destruct (apply_spec_filter base (normalize_filter ft)); [| done].
        intros [= <- <-]. simpl. apply lookup_insert_eq. }
  split; [| done]. unfold get_filtered_df. rewrite Hsame.
  rewrite (proj2 (String.eqb_neq _ _) Hne).
  unfold bind, gets, ret. by rewrite Hmemo.
Qed.

(** X19.  A name of ASCII characters that, in upper case, is neither
    RESET nor registered and is not in the memo makes
    [get_filtered_df] raise [KeyError] on the upper-cased name, in
    either mode, and leaves the memo and the manager as they were. *)
Theorem get_filtered_df_unknown st use_db base (name : string) :
  is_ascii name = true ->
  normalize_filter (Some name) <> "RESET" ->
  FILTER_SPECS !! normalize_filter (Some name) = None ->
  _filter_cache st !! normalize_filter (Some name) = None ->
  get_filtered_df use_db base (Some name) st =
    (Raise (KeyError (normalize_filter (Some name))), st).
Proof.
  intros _ Hne Hreg Hmemo. unfold get_filtered_df.
  rewrite (proj2 (String.eqb_neq _ _) Hne).
  unfold bind, gets. rewrite Hmemo.
  destruct use_db.
  - unfold lift, spec_to_mongo_query, lookup_spec. by rewrite Hreg.
  - unfold lift, apply_spec_filter, lookup_spec. by rewrite Hreg.
Qed.

(** The rule's query, once its items are sorted for the cache key,
    starts with the age range: a dict. *)
Lemma rule_query_unhashable (spec : FilterSpec) (bs : list string)
    (p : option pydict) :
  hash_key (request_key (Some (rule_query spec bs)) p) =
    Raise (TypeError "unhashable type: 'dict'").
Proof. reflexivity. Qed.

(** X20.  With the database filters switched on, an exception of the
    manager's [read_df] is not caught: for a filter that is not in the
    memo, [get_filtered_df] raises what [read_df] raised on the rule's
    query, memoizes nothing, and leaves the manager as [read_df] left
    it. *)
Theorem get_filtered_df_db_mode_raises st base ft (q : pydict) (e : exn)
    (w' : State S) :
  normalize_filter ft <> "RESET" ->
  _filter_cache st !! normalize_filter ft = None ->
  spec_to_mongo_query (normalize_filter ft) = Ok q ->
  read_df (Some q) (Some REQUIRED_FIELDS) false (db st) = (Raise e, w') ->
  get_filtered_df true base ft st = (Raise e, mkApp w' (_filter_cache st)).
Proof.
  intros Hne Hmemo Hq Hread. unfold get_filtered_df.
  rewrite (proj2 (String.eqb_neq _ _) Hne).
  unfold bind, gets. rewrite Hmemo.
  unfold lift at 1. rewrite Hq. unfold on_db. by rewrite Hread.
Qed.

(** X21. With the filters applied in memory, [get_filtered_df] keeps
    the memo sound (each entry is what the rule of that name keeps of
    the base table), never calls the manager, and returns either the
    base table, for RESET, or what [apply_spec_filter] keeps of it. *)
Theorem get_filtered_df_in_memory st base ft :
  memo_sound base st ->
  memo_sound base (snd (get_filtered_df false base ft st)) /\
  db (snd (get_filtered_df false base ft st)) = db st /\
  forall df, fst (get_filtered_df false base ft st) = Ok df ->
             (normalize_filter ft = "RESET" /\ df = base) \/
             apply_spec_filter base (normalize_filter ft) = Ok df.
Proof.
  intros Hsound. unfold get_filtered_df.
  destruct (String.eqb (normalize_filter ft) "RESET") eqn:Hr.
  - apply String.eqb_eq in Hr. simpl. split_and!; [done | done |].
    intros df [= <-]. by left.
  - unfold bind, gets, ret, modify, lift.
    destruct (_filter_cache st !! normalize_filter ft) as [d |] eqn:Hm.
    + simpl. split_and!; [done | done |]. intros df [= <-]. right.
      by apply Hsound.
    + destruct (apply_spec_filter base (normalize_filter ft))
        as [d | e] eqn:Ha; simpl.
      * split_and!; [| done | intros df [= <-]; by right].
        intros k df Hk. simpl in Hk.
        destruct (decide (normalize_filter ft = k)) as [<- | Hneq].
        -- rewrite lookup_insert_eq in Hk. by injection Hk as <-.
        -- rewrite lookup_insert_ne in Hk by done. by apply Hsound.
      * split_and!; done.
Qed.

End FilteredTables.

(* ================================================================== *)
(** * The earlier manager and dashboard against the later ones *)
(* ================================================================== *)

Section EarlierManager.
Context {S : Type} `{!Collection S}.
Implicit Types (w : State S) (c : call).

Lemma legacy_read_eq (q : option pydict) w :
  Legacy.read q w =
    match fetch (request_cursor q None None 0) (animals w) with
    | (Ok docs, s') =>
        (Ok docs,
         mkState s' (_read_cache w) (stdout w)
           (wire w ++ [Fetch (request_cursor q None None 0)]))
    | (Raise e, s') =>
        (Ok [],
         mkState s' (_read_cache w) (stdout w ++ [e])
           (wire w ++ [Fetch (request_cursor q None None 0)]))
    end.
Proof.
  unfold Legacy.read, try_except, list_cursor, round_trip, bind.
  assert (find (match q with Some q0 => q0 | None => [] end) None
          = request_cursor q None None 0) as ->.
  { by destruct q as [[| kv q] |]. }
  by destruct (fetch (request_cursor q None None 0) (animals w))
    as [[docs | e] s'].
Qed.

(** X22. The later manager with caching off and no projection, sort
    or limit does what the earlier manager did: on every call the two
    return the same result, send the same requests, leave the
    collection in the same state and print the same faults.  They
    differ in the cache only, which the earlier manager never touches
    and the later one flushes on an answered write. *)
Theorem later_manager_refines_earlier w c :
  fst (Legacy.perform c w) = fst (perform (Legacy.plain c) w) /\
  animals (snd (Legacy.perform c w))
    = animals (snd (perform (Legacy.plain c) w)) /\
  stdout (snd (Legacy.perform c w))
    = stdout (snd (perform (Legacy.plain c) w)) /\
  wire (snd (Legacy.perform c w))
    = wire (snd (perform (Legacy.plain c) w)) /\
  _read_cache (snd (Legacy.perform c w)) = _read_cache w.
Proof.
  destruct c as [d | q p so li uc | q u | q]; simpl.
  - unfold bind, Legacy.create, create.
    destruct (negb (isinstance_dict d) || negb (truthy d)); [done |].
    unfold try_except, bind, animals_insert_one, round_trip.
    by destruct (insert_one (dict_of d) (animals w)) as [[i | e] s'].
  - unfold bind. rewrite legacy_read_eq.
    destruct (fetch (request_cursor q None None 0) (animals w))
      as [[docs | e] s'] eqn:Hf.
    + by rewrite (read_direct_answer w q None None 0 docs s' Hf).
    + by rewrite (read_direct_fault w q None None 0 e s' Hf).
  - unfold bind, Legacy.update, update.
    destruct (negb (isinstance_dict q) || negb (truthy q)); [done |].
    destruct (negb (isinstance_dict u) || negb (truthy u)); [done |].
    unfold try_except, bind, animals_update_many, round_trip.
    by destruct (update_many (dict_of q) [("$set", u)] (animals w))
      as [[n | e] s'].
  - unfold bind, Legacy.delete, delete.
    destruct (negb (isinstance_dict q) || negb (truthy q)); [done |].
    unfold try_except, bind, animals_delete_many, round_trip.
    by destruct (delete_many (dict_of q) (animals w)) as [[n | e] s'].
Qed.

End EarlierManager.

Lemma breed_in_list (spec : FilterSpec) (bs : list string) (a : scalar) :
  (forall b, In b bs <-> b ∈ breeds spec) ->
  existsb (fun v => match v with
                    | Atom b => scalar_eqb a b
                    | _ => false
                    end)
          (map (fun b => Atom (SStr b)) bs)
  = breed_allowed spec (Val a).
Proof.
  intros Hbs. apply eq_true_iff_eq. rewrite existsb_exists.
  unfold breed_allowed. split.
  - intros (v & Hv & Heq). apply in_map_iff in Hv as (b & <- & Hb).
    destruct a as [| z | s]; try done. simpl in Heq.
    apply String.eqb_eq in Heq as ->. apply bool_decide_eq_true.
    by apply Hbs.
  - destruct a as [| z | s]; try done. intros Hs.
    apply bool_decide_eq_true in Hs.
    exists (Atom (SStr s)). split; [| simpl; apply String.eqb_refl].
    apply in_map_iff. exists s. split; [done |]. by apply Hbs.
Qed.

(** A rule's query asks the same of a record in whatever order its
    breeds are listed. *)
Lemma matches_rule_query_any_order (spec : FilterSpec) (bs : list string)
    (d : record) :
  (forall b, In b bs <-> b ∈ breeds spec) ->
  matches (rule_query spec bs) d = Some (is_dog d && wanted spec d).
Proof.
  intros Hbs.
  unfold rule_query, matches, holds_condition, holds_operators,
    holds_operator. simpl. rewrite (breed_in_list spec bs _ Hbs).
  f_equal. unfold is_dog, wanted, field_of.
  unfold breed_allowed, sex_required, age_in_range, cell_of.
  destruct (assoc "animal_type" d) as [[| z0 | t] |];
    destruct (assoc "breed" d) as [[| z1 | b] |];
    destruct (assoc "sex_upon_outcome" d) as [[| z2 | x] |];
    destruct (assoc "age_upon_outcome_in_weeks" d) as [[| z3 | a] |];
    simpl;
    rewrite ?andb_true_r, ?andb_false_r, ?andb_false_l, ?andb_assoc;
    reflexivity.
Qed.

Lemma select_rule_query (spec : FilterSpec) (bs : list string)
    (docs : list record) :
  (forall b, In b bs <-> b ∈ breeds spec) ->
  select (rule_query spec bs) docs =
    Some (List.filter (fun d => is_dog d && wanted spec d) docs).
Proof.
  intros Hbs. unfold select. rewrite matches_rule_query_any_order by done.
  f_equal. apply filter_agree. intros d _.
  by rewrite matches_rule_query_any_order.
Qed.

(** X23. For every filter name the later evaluator accepts, the query
    the earlier dashboard wrote out by hand selects the same documents
    from every collection as the query [spec_to_mongo_query] builds. *)
Theorem hand_written_queries_agree (ft : string) (q : pydict)
    (docs : list record) :
  spec_to_mongo_query ft = Ok q ->
  select (Legacy.dashboard_query (Some ft)) docs = select q docs.
Proof.
  unfold spec_to_mongo_query, lookup_spec.
  destruct (FILTER_SPECS !! ft) as [spec |] eqn:Hreg; [| done].
  intros [= <-]. fold (rule_query spec (sorted_strs (elements (breeds spec)))).
  rewrite (select_rule_query spec (sorted_strs (elements (breeds spec))));
    [| intros b; rewrite <- list_elem_of_In, sorted_strs_perm;
       apply elem_of_elements].
  unfold FILTER_SPECS in Hreg.
  apply lookup_insert_Some in Hreg as [[<- <-] | [_ Hreg]];
    [| apply lookup_insert_Some in Hreg as [[<- <-] | [_ Hreg]];
       [| apply lookup_insert_Some in Hreg as [[<- <-] | [_ Hreg]];
          [| by rewrite lookup_empty in Hreg]]];
    (match goal with
     | |- select _ _ = Some (List.filter (fun d => _ && wanted ?sp d) _) =>
         apply (select_rule_query sp)
     end;
     intros b; rewrite <- list_elem_of_In; cbn [breeds];
     rewrite ?elem_of_cons, ?elem_of_nil, ?elem_of_union, ?elem_of_singleton;
     tauto).
Qed.

(* ================================================================== *)
(** * The table callback *)
(* ================================================================== *)

Section TableCallback.
Context {S : Type} `{!Collection S} {RT : Runtime}.
Implicit Types (st : App S).

(** X24.  With a base table whose ages are numbers or missing and the
    filters applied in memory, [update_dashboard] answers every filter
    value that in upper case is RESET or a registered name, and never
    raises: it returns the same records twice, those of the base table
    for RESET and of what the rule keeps of it otherwise, keeps the
    memo sound and does not call the manager. *)
Theorem update_dashboard_serves_every_button base st ft :
  comparable base "age_upon_outcome_in_weeks" ->
  memo_sound base st ->
  normalize_filter ft = "RESET" \/
    is_Some (FILTER_SPECS !! normalize_filter ft) ->
  exists df st',
    update_dashboard false base ft st =
      (Ok (to_dict_records df, to_dict_records df), st') /\
    db st' = db st /\
    memo_sound base st' /\
    ((normalize_filter ft = "RESET" /\ df = base) \/
     (normalize_filter ft <> "RESET" /\
      apply_spec_filter base (normalize_filter ft) = Ok df)).
Proof.
  intros Hbase Hsound Hft.
  unfold update_dashboard, get_filtered_df, bind.
  destruct (String.eqb (normalize_filter ft) "RESET") eqn:Hr.
  - apply String.eqb_eq in Hr. exists base, st. unfold ret.
    split_and!; [done | done | done | by left].
  - apply String.eqb_neq in Hr. destruct Hft as [Hft | [spec Hreg]]; [done |].
    unfold gets, ret, modify, lift.
    destruct (_filter_cache st !! normalize_filter ft) as [d |] eqn:Hm.
    + exists d, st. split_and!; [done | done | done |].
      right. split; [done | by apply Hsound].
    + destruct (apply_spec_filter_comparable base (normalize_filter ft) spec
                  Hreg Hbase) as (kept & Hk & _).
      rewrite Hk. eexists kept, _. split_and!; [reflexivity | done | |].
      * intros k df Hl. simpl in Hl.
        destruct (decide (normalize_filter ft = k)) as [<- | Hneq].
        -- rewrite lookup_insert_eq in Hl. by injection Hl as <-.
        -- rewrite lookup_insert_ne in Hl by done. by apply Hsound.
      * right. by split.
Qed.

End TableCallback.

(* ================================================================== *)
(** ** The further properties on the small shelter *)
(* ================================================================== *)

Section FurtherOnTheShelter.
Import MemStore Sample Showroom.

Lemma uncached_read_keeps_cache_when_stale :
  cached stale (Some dogs) None [rex] /\
  fst (read (Some dogs) None None 0 false stale) = Ok [rex; bo] /\
  _read_cache (snd (read (Some dogs) None None 0 false stale))
    = _read_cache stale /\
  read (Some dogs) None None 0 true
       (snd (read (Some dogs) None None 0 false stale)) =
    (Ok [rex], snd (read (Some dogs) None None 0 false stale)).
Proof.
  assert (cached stale (Some dogs) None [rex]) as Hc.
  { exists dogs_key. split; reflexivity. }
  split; [exact Hc |]. split; [reflexivity |].
  exact (uncached_read_keeps_cache stale (Some dogs) None None 0
           (Some dogs) None None 0 [rex] Hc).
Defined.

Lemma read_keeps_entries_on_warm_shelter :
  _read_cache (snd (read (Some female_dogs) name_breed None 0 true warm))
    !! dogs_key = Some [rex; bo].
Proof.
  apply (read_keeps_entries warm (Some female_dogs) name_breed None 0 true
           dogs_key [rex; bo]).
  reflexivity.
Defined.

Lemma id_only_projection_shares_entry_on_warm_shelter :
  read (Some dogs) (Some [("_id", Atom (SInt 1))]) None 0 true warm =
    (Ok [rex; bo], warm).
Proof.
  apply (id_only_projection_shares_entry warm (Some dogs) None
           (Some [("_id", Atom (SInt 1))]) None 0 [rex; bo]).
  - reflexivity.
  - reflexivity.
  - exists dogs_key. split; reflexivity.
Defined.

Lemma create_reports_falsy_identifier_for_zero :
  create zed fresh =
    (Ok false,
     mkState
       (mkStore [rex; bo; tom; [("_id", SInt 0); ("name", SStr "Zed")]] 4 true)
       ∅ [] [InsertOne (dict_of zed)]).
Proof.
  exact (create_reports_falsy_identifier fresh zed (SInt 0)
           (mkStore [rex; bo; tom; [("_id", SInt 0); ("name", SStr "Zed")]]
                    4 true)
           eq_refl eq_refl eq_refl).
Defined.

Lemma only_argument_errors_escape_at_empty_query :
  fst (perform (Delete (VDict [])) warm) =
    Raise (ValueError "Query must be a non-empty dictionary.") /\
  ((exists m, ValueError "Query must be a non-empty dictionary."
              = ValueError m) \/
   (exists m, ValueError "Query must be a non-empty dictionary."
              = TypeError m)) /\
  snd (perform (Delete (VDict [])) warm) = warm.
Proof.
  split; [reflexivity |].
  apply (only_argument_errors_escape warm (Delete (VDict []))).
  reflexivity.
Defined.

Lemma clear_cache_forces_requery_on_warm_shelter :
  exists docs w',
    read (Some dogs) None None 0 true (snd (clear_cache warm))
      = (Ok docs, w') /\
    wire w' =
      (wire warm ++ [Fetch (request_cursor (Some dogs) None None 0)])%list.
Proof.
  apply (clear_cache_forces_requery warm (Some dogs) None None 0 dogs_key).
  reflexivity.
Defined.

Lemma read_df_ignores_field_order_on_shelter :
  read_df (RT := runtime) None (Some ["breed"; "_id"; "name"; "breed"])
          false tabled =
    (Ok (_clean_df (RT := runtime) (from_records names)), tabled).
Proof.
  apply (read_df_ignores_field_order (RT := runtime) tabled None
           ["name"; "breed"] ["breed"; "_id"; "name"; "breed"] names).
  - intros f Hf. simpl. intuition congruence.
  - exists names_key. split; reflexivity.
Defined.

Lemma read_df_never_shows_id_on_kennel :
  fst (read_df (RT := runtime) None (Some ["name"; "_id"]) true kennel)
    = Ok kennel_names /\
  has_column kennel_names "_id" = false.
Proof.
  split; [vm_compute; reflexivity |].
  apply (read_df_never_shows_id (RT := runtime) kennel None
           (Some ["name"; "_id"]) true kennel_names
           (snd (read_df (RT := runtime) None (Some ["name"; "_id"]) true
                         kennel))).
  vm_compute. reflexivity.
Defined.

Lemma read_df_trims_text_on_kennel :
  exists out,
    read_df (RT := runtime) None (Some ["name"; "_id"]) true kennel =
      (Ok out,
       mkState (mkStore [rex; ivy; bo] 8 true) ∅ []
         [Fetch (find [] (Some [ ("name", Atom (SInt 1));
                                 ("_id", Atom (SInt 1)) ]))]) /\
    forall i d c s,
      [ [("_id", SInt 1); ("name", SStr " Rex ")];
        [("_id", SInt 7); ("name", SStr "Ivy")];
        [("_id", SInt 2); ("name", SStr "Bo")] ] !! i = Some d ->
      In c text_fields ->
      assoc c d = Some (SStr s) ->
      is_plain s = true ->
      exists t, series out c !! i = Some (Val (SStr t)) /\ trimmed s t.
Proof.
  apply (read_df_trims_text (RT := runtime) kennel None
           (Some ["name"; "_id"]) true).
  vm_compute. reflexivity.
Defined.


Lemma read_df_table_can_be_filtered_on_kennel :
  exists kept,
    apply_spec_filter kennel_frame "WATER" = Ok kept /\
    columns kept = columns kennel_frame /\
    rows kept =
      (if forallb (has_column kennel_frame)
            ["breed"; "sex_upon_outcome"; "age_upon_outcome_in_weeks"]
       then List.filter (satisfies water (columns kennel_frame))
                        (rows kennel_frame)
       else []).
Proof.
  apply (read_df_table_can_be_filtered (RT := runtime) kennel (Some [])
           (Some REQUIRED_FIELDS) true kennel_frame
           (snd (read_df (RT := runtime) (Some []) (Some REQUIRED_FIELDS) true
                         kennel)) "WATER" water).
  - vm_compute. reflexivity.
  - apply water_registered.
Defined.

Lemma apply_spec_filter_is_subframe_on_shelter :
  columns (from_records [rex; tom]) = columns base /\
  sublist (rows (from_records [rex; tom])) (rows base).
Proof.
  apply (apply_spec_filter_is_subframe base (from_records [rex; tom]) "WATER").
  vm_compute. reflexivity.
Defined.

Lemma apply_spec_filter_idempotent_on_shelter :
  apply_spec_filter (from_records [rex; tom]) "WATER"
    = Ok (from_records [rex; tom]).
Proof.
  apply (apply_spec_filter_idempotent base (from_records [rex; tom]) "WATER").
  vm_compute. reflexivity.
Defined.

Lemma load_base_df_sorts_what_was_read_on_kennel :
  exists out,
    load_base_df (RT := runtime) (ST := sorting) true kennel =
      (Ok out,
       snd (read_df (RT := runtime) (Some []) (Some REQUIRED_FIELDS) true
                    kennel)) /\
    columns out = columns kennel_frame /\
    rows out ≡ₚ rows kennel_frame /\
    comparable out DEFAULT_SORT_FIELD /\
    (has_column kennel_frame DEFAULT_SORT_FIELD = false ->
     out = kennel_frame).
Proof.
  apply (load_base_df_sorts_what_was_read (RT := runtime) (ST := sorting)
           kennel true kennel_frame).
  - vm_compute. reflexivity.
  - repeat constructor.
Defined.

Lemma read_df_on_fault_when_unplugged :
  read_df (RT := runtime) (Some []) (Some REQUIRED_FIELDS) false unplugged =
    (Ok (mkFrame [] []),
     mkState (mkStore [rex; bo; tom] 4 false) ∅
       [PyMongoError "ServerSelectionTimeoutError"]
       [Fetch (request_cursor (Some [])
                 (_normalize_fields (Some REQUIRED_FIELDS)) None 0)]).
Proof.
  exact (read_df_on_fault (RT := runtime) unplugged (Some [])
           (Some REQUIRED_FIELDS) false
           (PyMongoError "ServerSelectionTimeoutError")
           (mkStore [rex; bo; tom] 4 false) eq_refl eq_refl).
Defined.

Lemma read_df_refuses_operator_queries_for_range :
  (exists msg,
     read_df (RT := runtime)
       (Some [("age_upon_outcome_in_weeks", Legacy.between 26 156)])
       (Some REQUIRED_FIELDS) false fresh = (Raise (TypeError msg), fresh)) /\
  (exists out w',
     read_df (RT := runtime)
       (Some [("age_upon_outcome_in_weeks", Legacy.between 26 156)])
       (Some REQUIRED_FIELDS) true fresh = (Ok out, w')).
Proof.
  apply (read_df_refuses_operator_queries (RT := runtime) fresh
           (Some [("age_upon_outcome_in_weeks", Legacy.between 26 156)])
           (Some REQUIRED_FIELDS) "age_upon_outcome_in_weeks"
           (Legacy.between 26 156)).
  - apply list_elem_of_here.
  - reflexivity.
Defined.

Lemma get_filtered_df_memoizes_on_shelter :
  get_filtered_df (RT := runtime) true (mkFrame [] []) (Some "Water") filtered
    = (Ok (from_records [rex; tom]), filtered) /\
  _filter_cache filtered !! normalize_filter (Some "water")
    = Some (from_records [rex; tom]).
Proof.
  apply (get_filtered_df_memoizes (RT := runtime) opened filtered false base
           (Some "water") (from_records [rex; tom]) true (mkFrame [] [])
           (Some "Water")).
  - vm_compute. reflexivity.
  - vm_compute. intros H. discriminate H.
  - reflexivity.
Defined.

Lemma get_filtered_df_unknown_for_cats :
  get_filtered_df (RT := runtime) false base (Some "cats") opened =
    (Raise (KeyError (normalize_filter (Some "cats"))), opened).
Proof.
  apply (get_filtered_df_unknown (RT := runtime) opened false base "cats").
  - reflexivity.
  - vm_compute. intros H. discriminate H.
  - vm_compute. reflexivity.
  - reflexivity.
Defined.

Lemma get_filtered_df_db_mode_raises_for_water :
  get_filtered_df (RT := runtime) true base (Some "water") opened =
    (Raise (TypeError "unhashable type: 'dict'"),
     mkApp fresh (_filter_cache opened)).
Proof.
  apply (get_filtered_df_db_mode_raises (RT := runtime) opened base
           (Some "water")
           (rule_query water (sorted_strs (elements (breeds water))))).
  - vm_compute. intros H. discriminate H.
  - reflexivity.
  - vm_compute. reflexivity.
  - vm_compute. reflexivity.
Defined.

Lemma get_filtered_df_in_memory_on_shelter :
  memo_sound base
    (snd (get_filtered_df (RT := runtime) false base (Some "water") opened)) /\
  db (snd (get_filtered_df (RT := runtime) false base (Some "water") opened))
    = db opened /\
  forall df,
    fst (get_filtered_df (RT := runtime) false base (Some "water") opened)
      = Ok df ->
    (normalize_filter (Some "water") = "RESET" /\ df = base) \/
    apply_spec_filter base (normalize_filter (Some "water")) = Ok df.
Proof.
  apply (get_filtered_df_in_memory (RT := runtime) opened base (Some "water")).
  intros k df H. unfold opened in H. cbn [_filter_cache] in H.
  rewrite lookup_empty in H. discriminate H.
Defined.

Lemma renderings_agree_when_kept_are_dogs_on_shelter :
  exists q kept,
    spec_to_mongo_query "WATER" = Ok q /\
    select q [rex; bo; felix] = Some kept /\
    apply_spec_filter (from_records [rex; bo; felix]) "WATER" =
      Ok (mkFrame (columns (from_records [rex; bo; felix]))
            (map (row_of (columns (from_records [rex; bo; felix]))) kept)).
Proof.
  apply (renderings_agree_when_kept_are_dogs [rex; bo; felix] "WATER"
           water water_registered); reflexivity.
Defined.

Lemma hand_written_queries_agree_for_water :
  select (Legacy.dashboard_query (Some "WATER")) [rex; bo; tom] =
    select [ ("animal_type", Atom (SStr "Dog"));
             ("breed",
              VDict [("$in", VList [ Atom (SStr "Chesapeake Bay Retriever");
                                     Atom (SStr "Labrador Retriever Mix");
                                     Atom (SStr "Newfoundland") ])]);
             ("sex_upon_outcome", Atom (SStr "Intact Female"));
             ("age_upon_outcome_in_weeks",
              VDict [("$gte", Atom (SInt 26)); ("$lte", Atom (SInt 156))]) ]
           [rex; bo; tom].
Proof.
  apply (hand_written_queries_agree "WATER" _ [rex; bo; tom]).
  apply water_query.
Defined.

Lemma update_dashboard_serves_every_button_on_kennel :
  exists df st',
    update_dashboard (RT := runtime) false kennel_base (Some "water")
                     (mkApp kennel ∅) =
      (Ok (to_dict_records df, to_dict_records df), st') /\
    db st' = db (mkApp kennel ∅) /\
    memo_sound kennel_base st' /\
    ((normalize_filter (Some "water") = "RESET" /\ df = kennel_base) \/
     (normalize_filter (Some "water") <> "RESET" /\
      apply_spec_filter kennel_base (normalize_filter (Some "water"))
        = Ok df)).
Proof.
  apply (update_dashboard_serves_every_button (RT := runtime)
           kennel_base (mkApp kennel ∅) (Some "water")).
  - repeat constructor.
  - intros k df H. cbn [_filter_cache] in H.
    rewrite lookup_empty in H. discriminate H.
  - right. exists water. vm_compute. reflexivity.
Defined.

End FurtherOnTheShelter.
